(** * K-means clustering notebook: a shallow embedding of its Python functions

    The notebook [k-means-101/K-means-Clustering.ipynb] defines [guess_clusters],
    [centroid], [select_members], [distance], [get_centroids], [reassign] (its
    second, scoring definition) and [k_means].  They are embedded here function
    by function, and after them [make_data] and the first definition of
    [reassign].

    - Python exceptions are the [Raise] branch of [result].
    - [sum] adds from left to right, starting from 0 (CPython before 3.12;
      later versions compensate the rounding of a sum of floats).
    - Python numbers are a type [F] with the operations of the class [PyFloat]:
      the functions are written once and run on IEEE binary64 ([float_arith],
      what CPython computes with) and on the real numbers ([real_arith], the
      arithmetic the specification speaks about).  [float_arith] squares with
      the correctly rounded product; [float_arith_pow] leaves open what the C
      library's [pow] returns.
    - A data set [x] is the notebook's column-major list: [x[d][i]] is the
      coordinate [d] of point [i]; a single point is a list of one-element
      lists.
    - A dict is an association list in insertion order; the order in which a
      Python [set] is traversed is a parameter ([SetOrder]).
    - The module-level random generator is an explicit state [Rng]; the number
      [random.gauss] makes of its draws is a parameter ([Sampler]).
    - The unbounded [while] loop of [k_means] takes fuel; [None] means the fuel
      ran out, never a Python outcome. *)

From Stdlib Require Import String List Permutation ZArith Arith Lia Bool Reals Lra Floats.
Import ListNotations.

Set Implicit Arguments.

(** ** Exceptions and the error monad *)

Inductive exn : Type :=
| IndexError
| ZeroDivisionError
| TypeError
| ValueError
| OverflowError
| UnboundLocalError.

Inductive result (A : Type) : Type :=
| Ok (a : A)
| Raise (e : exn).

Arguments Ok {A} a.
Arguments Raise {A} e.

Definition bind {A B : Type} (r : result A) (k : A -> result B) : result B :=
  match r with
  | Ok a => k a
  | Raise e => Raise e
  end.

Definition res_map {A B : Type} (f : A -> B) (r : result A) : result B :=
  bind r (fun a => Ok (f a)).

Declare Scope py_scope.
Delimit Scope py_scope with py.
Notation "x <- e ;; k" := (bind e (fun x => k))
  (at level 61, e at next level, right associativity) : py_scope.
Notation "' p <- e ;; k" := (bind e (fun v => let p := v in k))
  (at level 61, p pattern, e at next level, right associativity) : py_scope.
Open Scope py_scope.

(** A list comprehension whose body can raise: elements are evaluated from
    left to right and the first exception wins. *)
Fixpoint mapM {A B : Type} (f : A -> result B) (l : list A) : result (list B) :=
  match l with
  | [] => Ok []
  | a :: l' => b <- f a ;; bs <- mapM f l' ;; Ok (b :: bs)
  end.

(** A [for] loop over [l] that updates the loop variables [acc]. *)
Fixpoint foldM {A S : Type} (f : S -> A -> result S) (l : list A) (acc : S) : result S :=
  match l with
  | [] => Ok acc
  | a :: l' => acc' <- f acc a ;; foldM f l' acc'
  end.

(** [l[i]] for a non-negative index. *)
Definition index {A : Type} (l : list A) (i : nat) : result A :=
  match nth_error l i with
  | Some a => Ok a
  | None => Raise IndexError
  end.

(** ** Numbers *)

(** The arithmetic the notebook uses, on Python numbers. *)
Class PyFloat (F : Type) : Type := {
  f0 : F;                        (* 0 and 0.0 *)
  fadd : F -> F -> F;            (* a + b *)
  fsub : F -> F -> F;            (* a - b *)
  fpow2 : F -> result F;         (* a ** 2, OverflowError when out of range *)
  fsqrt : F -> result F;         (* math.sqrt(a), ValueError below zero *)
  fdiv : F -> F -> result F;     (* a / b, ZeroDivisionError when b == 0 *)
  fabs : F -> F;                 (* abs(a) *)
  flt : F -> F -> bool;          (* a < b *)
  of_len : nat -> F;             (* float(len(l)) *)
  maxsize : F;                   (* sys.maxsize *)
  threshold : F                  (* 1e-7 *)
}.

(** ** Labels, the random generator and set traversal *)

(** A cluster label is one of the colour names or Python's [None]. *)
Definition label : Type := option string.

Definition label_eqb (a b : label) : bool :=
  match a, b with
  | Some s, Some t => String.eqb s t
  | None, None => true
  | _, _ => false
  end.

Definition co : list string :=
  ["red"; "orange"; "yellow"; "green"; "purple"; "blue"; "black"; "brown"]%string.

(** [co[0]], the only label a run with k = 1 can draw. *)
Definition first_label : label := Some "red"%string.

(** The state of the [random] module: the draws still to come. *)
Definition Rng : Type := nat -> nat.

Definition M (A : Type) : Type := Rng -> result A * Rng.

Definition retM {A : Type} (a : A) : M A := fun g => (Ok a, g).

Definition bindM {A B : Type} (m : M A) (k : A -> M B) : M B :=
  fun g =>
    match m g with
    | (Ok a, g') => k a g'
    | (Raise e, g') => (Raise e, g')
    end.

(** A call of a function that neither reads nor advances the generator. *)
Definition pure_call {A : Type} (r : result A) : M A := fun g => (r, g).

(** The same call made two times in a row. *)
Definition twice {A : Type} (m : M A) : M (A * A) :=
  bindM m (fun a => bindM m (fun b => retM (a, b))).

(** [random.choice(range(k))]: an empty range raises [IndexError]. *)
Definition random_choice_range (k : Z) : M nat :=
  fun g =>
    if (k <=? 0)%Z then (Raise IndexError, g)
    else (Ok (g 0 mod Z.to_nat k), fun i => g (S i)).

(** The order in which [for i in set(membership)] visits the labels. *)
Class SetOrder : Type := { set_iter : list label -> list label }.

(** What Python guarantees of that order: each label once, no other. *)
Definition set_iter_ok (so : SetOrder) : Prop :=
  forall l : list label,
    NoDup (set_iter l) /\ (forall a, In a (set_iter l) <-> In a l).

(** ** The notebook's functions *)

Section KMeans.

Context {F : Type} {PF : PyFloat F} {SO : SetOrder}.

(** A point is a list of one-element lists; a data set is a list of columns. *)
Definition point : Type := list (list F).
Definition dataset : Type := list (list F).
Definition dict : Type := list (label * point).

(** [sum(l)] *)
Definition fsum (l : list F) : F := fold_left fadd l f0.

(** [[co[random.choice(range(n_clusters))] for i in range(n)]] *)
Fixpoint guess_labels (n : nat) (k : Z) : M (list label) :=
  match n with
  | O => retM []
  | S n' =>
      bindM (random_choice_range k) (fun j =>
      bindM (pure_call (index co j)) (fun s =>
      bindM (guess_labels n' k) (fun rest =>
      retM (Some s :: rest))))
  end.

(** [guess_clusters]: the [for] loop returns in its first round, so an
    empty first column falls through and the function returns [None]. *)
Definition guess_clusters (x : dataset) (n_clusters : Z) : M (option (list label)) :=
  bindM (pure_call (index x 0)) (fun x0 =>
    match length x0 with
    | O => retM None
    | S _ => bindM (guess_labels (length x0) n_clusters) (fun m => retM (Some m))
    end).

Definition centroid (x : dataset) : result point :=
  mapM (fun col =>
          x0 <- index x 0 ;;
          q <- fdiv (fsum col) (of_len (length x0)) ;;
          Ok [q]) x.

Definition select_members (x : dataset) (membership : list label) (cluster : label)
  : dataset :=
  map (fun dim =>
         map fst (filter (fun il => label_eqb (snd il) cluster) (combine dim membership)))
      x.

Definition distance (p1 p2 : point) : result F :=
  sq <- mapM (fun ij =>
                a <- index (fst ij) 0 ;;
                b <- index (snd ij) 0 ;;
                fpow2 (fsub a b)) (combine p1 p2) ;;
  fsqrt (fsum sq).

(** [set(None)] raises [TypeError]. *)
Definition get_centroids (x : dataset) (membership : option (list label))
  : result dict :=
  match membership with
  | None => Raise TypeError
  | Some m =>
      mapM (fun i => c <- centroid (select_members x m i) ;; Ok (i, c)) (set_iter m)
  end.

(** The [scores] dict of [reassign]. *)
Fixpoint scores_get (scores : list (label * F)) (c : label) (default : F) : F :=
  match scores with
  | [] => default
  | (c', v) :: rest => if label_eqb c' c then v else scores_get rest c default
  end.

Fixpoint scores_set (scores : list (label * F)) (c : label) (v : F)
  : list (label * F) :=
  match scores with
  | [] => [(c, v)]
  | (c', v') :: rest =>
      if label_eqb c' c then (c', v) :: rest else (c', v') :: scores_set rest c v
  end.

(** [[[t[idx]] for t in x]] *)
Definition point_at (x : dataset) (idx : nat) : result point :=
  mapM (fun t => v <- index t idx ;; Ok [v]) x.

(** One round of the inner loop: [if dist < min_d: min_d = dist; cluster = c]. *)
Definition closer (best : F * label) (c : label) (dist : F) : F * label :=
  if flt dist (fst best) then (dist, c) else best.

(** One round of the inner loop of [reassign], for the centroid [cvc]. *)
Definition inner_round (x : dataset) (idx : nat) (best : F * label)
           (cvc : label * point) : result (F * label) :=
  p <- point_at x idx ;;
  dist <- distance (snd cvc) p ;;
  Ok (closer best (fst cvc) dist).

(** The inner loop of [reassign] for the point [idx]. *)
Definition nearest (x : dataset) (centroids : dict) (idx : nat) : result (F * label) :=
  foldM (inner_round x idx) centroids (maxsize, None).

(** [scores[cluster] = min_d + scores.get(cluster, 0)] *)
Definition add_score (scores : list (label * F)) (best : F * label)
  : list (label * F) :=
  scores_set scores (snd best) (fadd (fst best) (scores_get scores (snd best) f0)).

Definition reassign (x : dataset) (centroids : dict) : result (list label * F) :=
  x0 <- index x 0 ;;
  ms <- foldM (fun ms idx =>
                 best <- nearest x centroids idx ;;
                 Ok (fst ms ++ [snd best], add_score (snd ms) best))
              (seq 0 (length x0)) ([], []) ;;
  total <- fdiv (fsum (map snd (snd ms))) (of_len (length x0)) ;;
  Ok (fst ms, total).

(** The variables of the [while] loop of [k_means]; [c] is unbound until the
    body has run, and [iterations] counts the passes of the body. *)
Record loop_state : Type := {
  membership : option (list label);
  c : option dict;
  score : F;
  last_score : F;
  iterations : nat
}.

Definition run_result : Type := (option (list label) * dict * F)%type.

(** [abs(last_score - score) > 1e-7] *)
Definition continues (st : loop_state) : bool :=
  flt threshold (fabs (fsub (last_score st) (score st))).

Definition loop_body (data : dataset) (st : loop_state) : result loop_state :=
  cs <- get_centroids data (membership st) ;;
  ms <- reassign data cs ;;
  Ok {| membership := Some (fst ms);
        c := Some cs;
        score := snd ms;
        last_score := score st;
        iterations := S (iterations st) |}.

(** [return membership, c, score] *)
Definition loop_return (st : loop_state) : result (run_result * nat) :=
  match c st with
  | None => Raise UnboundLocalError
  | Some cs => Ok ((membership st, cs, score st), iterations st)
  end.

Fixpoint k_loop (fuel : nat) (data : dataset) (st : loop_state)
  : option (result (run_result * nat)) :=
  if continues st then
    match fuel with
    | O => None
    | S fuel' =>
        match loop_body data st with
        | Ok st' => k_loop fuel' data st'
        | Raise e => Some (Raise e)
        end
    end
  else Some (loop_return st).

(** [passes data m st st']: from [st] the loop makes [m] passes of its body,
    its test holding before each, and reaches [st']. *)
Inductive passes (data : dataset) : nat -> loop_state -> loop_state -> Prop :=
| passes_O : forall st, passes data 0 st st
| passes_S : forall m st st1 st',
    continues st = true ->
    loop_body data st = Ok st1 ->
    passes data m st1 st' ->
    passes data (S m) st st'.

Definition initial_state (m : option (list label)) : loop_state :=
  {| membership := m; c := None; score := f0; last_score := maxsize; iterations := 0 |}.

(** The states the loop of a run of [k_means data k] goes through when the
    random generator starts in state [g]. *)
Inductive reachable (data : dataset) (k : Z) (g : Rng) : loop_state -> Prop :=
| reachable_init : forall m g',
    guess_clusters data k g = (Ok m, g') ->
    reachable data k g (initial_state m)
| reachable_pass : forall st st',
    reachable data k g st ->
    continues st = true ->
    loop_body data st = Ok st' ->
    reachable data k g st'.

(** [k_means] with the number of passes it made. *)
Definition k_means_count (fuel : nat) (data : dataset) (k : Z) (g : Rng)
  : option (result (run_result * nat)) * Rng :=
  match guess_clusters data k g with
  | (Ok m, g') => (k_loop fuel data (initial_state m), g')
  | (Raise e, g') => (Some (Raise e), g')
  end.

Definition k_means (fuel : nat) (data : dataset) (k : Z) (g : Rng)
  : option (result run_result) * Rng :=
  let (r, g') := k_means_count fuel data k g in
  (option_map (res_map fst) r, g').

(** *** Shapes of the data *)

(** Every point has a coordinate in every dimension: the columns are as
    long as the first. *)
Definition rectangular (x : dataset) : bool :=
  match x with
  | [] => true
  | x0 :: rest => forallb (fun col => length col =? length x0) rest
  end.

(** The coordinates of a point are one-element lists. *)
Definition singletons (p : point) : Prop := Forall (fun c => exists v : F, c = [v]) p.


(** *** The specification's words, for comparison *)

(** The arithmetic mean of one column. *)
Definition column_mean (col : list F) : result F :=
  fdiv (fsum col) (of_len (length col)).

(** The distances from point [idx] to the centroids, in mapping order. *)
Definition distances_from (x : dataset) (centroids : dict) (idx : nat)
  : result (list F) :=
  mapM (fun cvc => p <- point_at x idx ;; distance (snd cvc) p) centroids.





(** The distances from every point to one centroid, and their mean. *)
Definition distances_to (cen : point) (x : dataset) : result (list F) :=
  x0 <- index x 0 ;;
  mapM (fun idx => p <- point_at x idx ;; distance cen p) (seq 0 (length x0)).

Definition mean_distance_to (cen : point) (x : dataset) : result F :=
  ds <- distances_to cen x ;;
  fdiv (fsum ds) (of_len (length ds)).

(** [m] is a minimum of [ds]: one of them, and none of them is below it. *)
Definition minimum_of (ds : list F) (m : F) : Prop :=
  In m ds /\ Forall (fun d => flt d m = false) ds.

(** [adds_up l s]: adding up the numbers of [l], each once, in some order
    and grouping and from 0, gives [s]. *)
Inductive adds_up : list F -> F -> Prop :=
| adds_nil : adds_up [] f0
| adds_one : forall a, adds_up [a] a
| adds_app : forall l1 l2 a b,
    adds_up l1 a -> adds_up l2 b -> adds_up (l1 ++ l2) (fadd a b)
| adds_perm : forall l l' a, Permutation l l' -> adds_up l a -> adds_up l' a.

(** *** Invariants of the two loops of [reassign] *)

(** The inner loop, with the distances computed beforehand. *)
Definition scan (lds : list (label * F)) (best : F * label) : F * label :=
  fold_left (fun b cd => closer b (fst cd) (snd cd)) lds best.


(** What the inner loop holds after the distances [seen]: the sentinel,
    none of them being below it, or a minimum of them that is below it. *)
Definition found (seen : list F) (b : F) : Prop :=
  (b = maxsize /\ Forall (fun d => flt d maxsize = false) seen) \/
  (flt b maxsize = true /\ minimum_of seen b).


(** *** Laws of arithmetic *)

(** [<] is a strict order; so it is in binary64, where a comparison with
    not-a-number is false. *)
Record strict_order : Prop := {
  lt_irrefl : forall a : F, flt a a = false;
  lt_trans : forall a b c : F, flt a b = true -> flt b c = true -> flt a c = true
}.

(** What a run with one cluster needs of the arithmetic, in which [good]
    holds of the numbers a distance can be: they are closed under addition
    and square root, squares are among them, and adding them to 0 changes
    nothing; a number is within the threshold of itself, and [sys.maxsize]
    is not within the threshold of 0.  Binary64 has these laws, with every
    number but -0.0 and those below 0 for [good]. *)
Record distance_arith (good : F -> Prop) : Prop := {
  da_comm : forall a b : F, fadd a b = fadd b a;
  da_zero : good f0;
  da_add : forall a b : F, good a -> good b -> good (fadd a b);
  da_zero_l : forall a : F, good a -> fadd f0 a = a;
  da_pow2 : forall a b : F, fpow2 a = Ok b -> good b;
  da_sqrt : forall a b : F, good a -> fsqrt a = Ok b -> good b;
  da_self : forall a : F, flt threshold (fabs (fsub a a)) = false;
  da_first : flt threshold (fabs (fsub maxsize f0)) = true
}.

(** The laws of exact arithmetic that the cost of a pass relies on: sums do
    not depend on the order of their terms, a number below [b] is below
    every number that is not below [b], and a count of one or more divides. *)
Record exact_arith : Prop := {
  fadd_comm : forall a b : F, fadd a b = fadd b a;
  fadd_assoc : forall a b c : F, fadd a (fadd b c) = fadd (fadd a b) c;
  fadd_0_r : forall a : F, fadd a f0 = a;
  flt_cotrans : forall a b c : F, flt a b = true -> flt c b = false -> flt a c = true;
  fdiv_len : forall (a : F) (n : nat), exists q, fdiv a (of_len (S n)) = Ok q
}.

End KMeans.

Arguments exact_arith {F} PF.
Arguments strict_order {F} PF.
Arguments distance_arith {F} PF good.

(** ** The two arithmetics *)

(** IEEE binary64, CPython's [float].  [sys.maxsize] is the integer 2^63-1;
    no binary64 number lies strictly between it and 2^63, so comparing with
    and subtracting from the number 2^63 gives what Python's mixed
    int/float operations give, and a sum of [sys.maxsize] terms converts to
    the float this sum of 2^63 terms is.  [a ** 2] is taken as the correctly
    rounded product, with the [OverflowError] of [float.__pow__].  [float(n)]
    is exact up to 2^53 and defined below 2^63, the longest list there is. *)
#[export] Instance float_arith : PyFloat float := {|
  f0 := 0%float;
  fadd := PrimFloat.add;
  fsub := PrimFloat.sub;
  fpow2 := fun a =>
    let r := PrimFloat.mul a a in
    if PrimFloat.is_infinity r && negb (PrimFloat.is_infinity a)
    then Raise OverflowError else Ok r;
  fsqrt := fun a =>
    if PrimFloat.ltb a 0%float then Raise ValueError else Ok (PrimFloat.sqrt a);
  fdiv := fun a b =>
    if PrimFloat.eqb b 0%float then Raise ZeroDivisionError else Ok (PrimFloat.div a b);
  fabs := PrimFloat.abs;
  flt := PrimFloat.ltb;
  of_len := fun n => PrimFloat.of_uint63 (Uint63.of_Z (Z.of_nat n));
  maxsize := 0x1p63%float;
  threshold := 0x1.ad7f29abcaf48p-24%float
|}.

(** Binary64 with the square left open.  CPython computes [a ** 2] with the
    C library's [pow], on the absolute value of [a] (the exponent being
    even), and the last bit of the result is the library's: [square] is what
    [a ** 2] makes of [|a|], a number or the [OverflowError] of
    [float.__pow__].  The other operations are those of [float_arith]. *)
Definition float_arith_pow (square : float -> result float) : PyFloat float := {|
  f0 := 0%float;
  fadd := PrimFloat.add;
  fsub := PrimFloat.sub;
  fpow2 := fun a => square (PrimFloat.abs a);
  fsqrt := fun a =>
    if PrimFloat.ltb a 0%float then Raise ValueError else Ok (PrimFloat.sqrt a);
  fdiv := fun a b =>
    if PrimFloat.eqb b 0%float then Raise ZeroDivisionError else Ok (PrimFloat.div a b);
  fabs := PrimFloat.abs;
  flt := PrimFloat.ltb;
  of_len := fun n => PrimFloat.of_uint63 (Uint63.of_Z (Z.of_nat n));
  maxsize := 0x1p63%float;
  threshold := 0x1.ad7f29abcaf48p-24%float
|}.

(** The correctly rounded square, the one of [float_arith]. *)
Definition rounded_square (a : float) : result float :=
  let r := PrimFloat.mul a a in
  if PrimFloat.is_infinity r && negb (PrimFloat.is_infinity a)
  then Raise OverflowError else Ok r.

Definition Rltb (a b : R) : bool := if Rlt_dec a b then true else false.

(** Exact real arithmetic. *)
#[export] Instance real_arith : PyFloat R := {|
  f0 := 0%R;
  fadd := Rplus;
  fsub := Rminus;
  fpow2 := fun a => Ok (a * a)%R;
  fsqrt := fun a => if Rlt_dec a 0 then Raise ValueError else Ok (R_sqrt.sqrt a);
  fdiv := fun a b =>
    if Req_dec_T b 0 then Raise ZeroDivisionError else Ok (a / b)%R;
  fabs := Rabs;
  flt := Rltb;
  of_len := INR;
  maxsize := 9223372036854775807%R;   (* 2^63 - 1 *)
  threshold := (/ 10000000)%R
|}.

(** A set traversed in order of first occurrence. *)
Fixpoint first_seen (l : list label) : list label :=
  match l with
  | [] => []
  | a :: l' => a :: filter (fun b => negb (label_eqb b a)) (first_seen l')
  end.

#[export] Instance first_seen_order : SetOrder := {| set_iter := first_seen |}.

(** A generator whose every draw is [v]. *)
Definition constant_rng (v : nat) : Rng := fun _ => v.

(** A generator that repeats the draws of [l] for ever (0 when [l] is empty). *)
Definition cycle (l : list nat) : Rng := fun i => nth (i mod length l) l 0.

(** ** Data sets of the examples *)

(** Six points on a line; the draws label them red, red, orange, orange,
    yellow, yellow. *)
Definition lost_cluster_data : @dataset float := [[0; 10; 4; 4.5; 5.5; 6]]%float.

Definition lost_cluster_rng : Rng := cycle [0; 0; 1; 1; 2; 2].


(** The second point has a coordinate in the first dimension only. *)
Definition ragged_long_first : @dataset float := [[1; 2]; [5]]%float.

(** The specifications of the binary64 numbers that are not below 0 and
    are not -0.0: the sign bit is clear, or the number is not a number. *)
Definition sf_nonneg (x : SpecFloat.spec_float) : bool :=
  match x with
  | SpecFloat.S754_nan => true
  | SpecFloat.S754_infinity s
  | SpecFloat.S754_zero s
  | SpecFloat.S754_finite s _ _ => negb s
  end.

Definition float_good (a : float) : Prop := sf_nonneg (Prim2SF a) = true.

Definition real_good (a : R) : Prop := (0 <= a)%R.


(** ** The rest of the notebook *)

(** [random.gauss(mu, sigma)] reads the generator and advances it; the
    number it makes of the draws is a parameter. *)
Class Sampler (F : Type) : Type := { random_gauss : nat -> F -> Rng -> F * Rng }.

(** A [for] loop over [l] whose body draws random numbers. *)
Fixpoint forM {A S : Type} (f : S -> A -> M S) (l : list A) (acc : S) : M S :=
  match l with
  | [] => retM acc
  | a :: l' => bindM (f acc a) (forM f l')
  end.

Section Notebook.

Context {F : Type} {PF : PyFloat F} {SG : Sampler F}.

(** [[random.gauss(mu, sigma) for j in range(n)]] *)
Fixpoint gauss_values (n : nat) (mu : nat) (sigma : F) : M (list F) :=
  match n with
  | O => retM []
  | S n' =>
      fun g =>
        let (v, g1) := random_gauss mu sigma g in
        bindM (gauss_values n' mu sigma) (fun vs => retM (v :: vs)) g1
  end.

(** [x[d].extend(vs)]: the columns are distinct lists, so only column [d]
    grows. *)
Fixpoint extend_column (x : dataset) (d : nat) (vs : list F) : dataset :=
  match x, d with
  | [], _ => []
  | col :: rest, O => (col ++ vs) :: rest
  | col :: rest, S d' => col :: extend_column rest d' vs
  end.

(** [make_data(n_points, n_clusters, dim, sigma)]; a range of a negative
    number is empty. *)
Definition make_data (n_points n_clusters dim : Z) (sigma : F) : M dataset :=
  forM (fun x i =>
          forM (fun x d =>
                  bindM (pure_call (index x d)) (fun _ =>
                  bindM (gauss_values (Z.to_nat n_points) (i * 3) sigma) (fun vs =>
                  retM (extend_column x d vs))))
               (seq 0 (Z.to_nat dim)) x)
       (seq 0 (Z.to_nat n_clusters))
       (repeat [] (Z.to_nat dim)).

(** The numbers [random.gauss(mu, sigma)] can return. *)
Definition drawn (mu : nat) (sigma : F) (v : F) : Prop :=
  exists g : Rng, v = fst (random_gauss mu sigma g).

(** A column made of [k] blocks of [n] numbers, block [i] drawn with the
    mean [i * 3]. *)
Definition cluster_blocks (n : nat) (sigma : F) (k : nat) (col : list F) : Prop :=
  exists bs : list (list F),
    col = concat bs /\ length bs = k /\
    forall i b, nth_error bs i = Some b -> length b = n /\ Forall (drawn (i * 3) sigma) b.

(** The first definition of [reassign] in the notebook, which the scoring
    one replaces: it keeps no scores, and [cluster] starts as the empty
    string. *)
Definition nearest_first (x : dataset) (centroids : dict) (idx : nat)
  : result (F * label) :=
  foldM (inner_round x idx) centroids (maxsize, Some EmptyString).

Definition reassign_first (x : dataset) (centroids : dict) : result (list label) :=
  x0 <- index x 0 ;;
  foldM (fun mem idx =>
           best <- nearest_first x centroids idx ;;
           Ok (mem ++ [snd best]))
        (seq 0 (length x0)) [].

(** The label of a point that no centroid is near enough to: the empty
    string in the first [reassign], [None] in the second. *)
Definition same_or_unassigned (first second : label) : Prop :=
  first = second \/ (first = Some EmptyString /\ second = None).

(** One of the first [k] colour names, or [None]. *)
Definition among_first (k : Z) (l : label) : Prop :=
  l = None \/ exists s, l = Some s /\ In s (firstn (Z.to_nat k) co).

End Notebook.

(** A sampler that returns the mean and uses up one draw. *)
#[export] Instance mean_sampler : Sampler float :=
  {| random_gauss := fun mu _ g => (of_len mu, fun i => g (S i)) |}.

(** A point of binary64 coordinates none of which is infinite or not a
    number. *)
Definition finite_point (p : @point float) : Prop :=
  Forall (fun c => exists v, c = [v] /\ PrimFloat.is_finite v = true) p.

(** ** Facts about the error monad *)

Section MonadFacts.

Context {A B : Type}.

Lemma bind_Ok_inv (r : result A) (k : A -> result B) (b : B) :
  bind r k = Ok b -> exists a, r = Ok a /\ k a = Ok b.
Proof. destruct r as [a|e]; simpl; intros H; [eauto | discriminate]. Qed.

Lemma mapM_ext_in (f g : A -> result B) (l : list A) :
  (forall a, In a l -> f a = g a) -> mapM f l = mapM g l.
Proof.
  induction l as [|a l IH]; intros H; simpl; [reflexivity|].
  rewrite (H a (or_introl eq_refl)), IH; [reflexivity|].
  intros a' Ha'. apply H. now right.
Qed.

Lemma mapM_length (f : A -> result B) (l : list A) (bs : list B) :
  mapM f l = Ok bs -> length bs = length l.
Proof.
  revert bs. induction l as [|a l IH]; simpl; intros bs H.
  - now inversion H.
  - destruct (f a) as [b|e]; simpl in H; [|discriminate].
    destruct (mapM f l) as [bs'|e]; simpl in H; [|discriminate].
    inversion H; subst. simpl. now rewrite (IH bs').
Qed.

Lemma mapM_nth_error (f : A -> result B) (l : list A) (bs : list B) (j : nat) (a : A) :
  mapM f l = Ok bs -> nth_error l j = Some a ->
  exists b, f a = Ok b /\ nth_error bs j = Some b.
Proof.
  revert bs j. induction l as [|a0 l IH]; simpl; intros bs j H Hj.
  - destruct j; discriminate.
  - destruct (f a0) as [b0|e] eqn:E0; simpl in H; [|discriminate].
    destruct (mapM f l) as [bs'|e]; simpl in H; [|discriminate].
    inversion H; subst. destruct j as [|j]; simpl in *.
    + inversion Hj; subst. eauto.
    + eapply IH; eauto.
Qed.

Lemma mapM_Forall2 (f : A -> result B) (l : list A) (bs : list B) :
  mapM f l = Ok bs -> Forall2 (fun a b => f a = Ok b) l bs.
Proof.
  revert bs. induction l as [|a l IH]; simpl; intros bs H.
  - inversion H. constructor.
  - destruct (f a) as [b|e] eqn:E; simpl in H; [|discriminate].
    destruct (mapM f l) as [bs'|e]; simpl in H; [|discriminate].
    inversion H; subst. constructor; auto.
Qed.

End MonadFacts.

Lemma index_cons_0 {A : Type} (a : A) (l : list A) : index (a :: l) 0 = Ok a.
Proof. reflexivity. Qed.

Lemma index_Ok_lt {A : Type} (l : list A) (i : nat) :
  i < length l -> exists a, index l i = Ok a /\ nth_error l i = Some a.
Proof.
  intros H. unfold index. destruct (nth_error l i) as [a|] eqn:E; [eauto|].
  apply nth_error_None in E. lia.
Qed.

(** ** The Centroid Calculator *)

Section CentroidFacts.

Context {F : Type} {PF : PyFloat F}.

(** On columns of one length the divisor [len(x[0])] is each column's own
    length. *)
Lemma centroid_column_means (x : dataset) (n : nat) :
  Forall (fun col : list F => length col = n) x ->
  centroid x = mapM (fun col => q <- column_mean col ;; Ok [q]) x.
Proof.
  intros Hx. unfold centroid. apply mapM_ext_in. intros col Hcol.
  destruct x as [|x0 rest]; [contradiction|].
  rewrite index_cons_0. simpl. unfold column_mean.
  rewrite Forall_forall in Hx.
  rewrite (Hx x0 (or_introl eq_refl)), (Hx col Hcol). reflexivity.
Qed.

Lemma column_means_total (x : dataset) (n : nat) :
  (forall a : F, exists q, fdiv a (of_len n) = Ok q) ->
  Forall (fun col : list F => length col = n) x ->
  exists cen, mapM (fun col => q <- column_mean col ;; Ok [q]) x = Ok cen.
Proof.
  intros Hdiv. induction 1 as [|col x Hcol _ [cen IH]]; simpl; [eauto|].
  unfold column_mean at 1. rewrite Hcol.
  destruct (Hdiv (fsum col)) as [q ->]. simpl. rewrite IH. simpl. eauto.
Qed.

End CentroidFacts.

(** C4.  For a subset whose columns all hold [n] values, where a number can
    be divided by the count [n] (it is not zero: the subset is not empty),
    [centroid] returns a point with one coordinate per column, the coordinate
    of each column being its arithmetic mean, sum over count; the call leaves
    the random generator as it was and does not depend on it.  Over the
    reals every subset of [n >= 1] points is such a subset. *)
Theorem centroid_is_column_mean :
  (forall (F : Type) (PF : PyFloat F) (x : dataset) (n : nat),
      (forall a : F, exists q, fdiv a (of_len n) = Ok q) ->
      Forall (fun col : list F => length col = n) x ->
      exists cen : point,
        centroid x = Ok cen /\
        length cen = length x /\
        (forall j col, nth_error x j = Some col ->
           exists q, column_mean col = Ok q /\ nth_error cen j = Some [q]) /\
        (forall g : Rng, pure_call (centroid x) g = (Ok cen, g))) /\
  (forall (x : @dataset R) (n : nat),
      1 <= n ->
      Forall (fun col : list R => length col = n) x ->
      @centroid R real_arith x = Ok (map (fun col => [(fsum col / INR n)%R]) x)).
Proof.
  assert (Hgen : forall (F : Type) (PF : PyFloat F) (x : dataset) (n : nat),
      (forall a : F, exists q, fdiv a (of_len n) = Ok q) ->
      Forall (fun col : list F => length col = n) x ->
      exists cen : point,
        centroid x = Ok cen /\
        length cen = length x /\
        (forall j col, nth_error x j = Some col ->
           exists q, column_mean col = Ok q /\ nth_error cen j = Some [q]) /\
        (forall g : Rng, pure_call (centroid x) g = (Ok cen, g))).
  { intros F PF x n Hdiv Hx.
    destruct (column_means_total Hdiv Hx) as [cen Hcen].
    exists cen. rewrite (centroid_column_means Hx).
    split; [exact Hcen|]. split; [exact (mapM_length _ _ Hcen)|]. split.
    - intros j col Hj.
      destruct (mapM_nth_error _ _ _ Hcen Hj) as [b [Hb Hnth]].
      apply bind_Ok_inv in Hb. destruct Hb as [q [Hq Hb]].
      inversion Hb; subst. eauto.
    - intros g. unfold pure_call. rewrite Hcen. reflexivity. }
  split; [exact Hgen|].
  intros x n Hn Hx.
  rewrite (centroid_column_means Hx).
  induction Hx as [|col x Hcol _ IH]; [reflexivity|].
  cbn [mapM map]. unfold column_mean at 1. rewrite Hcol.
  change (@of_len R real_arith n) with (INR n).
  change (@fdiv R real_arith (fsum col) (INR n))
    with (if Req_dec_T (INR n) 0 then Raise ZeroDivisionError
          else Ok (fsum col / INR n)%R).
  destruct (Req_dec_T (INR n) 0) as [E|_].
  - exfalso. apply (not_0_INR n); [lia | exact E].
  - cbn [bind]. rewrite IH. reflexivity.
Qed.

Lemma centroid_is_column_mean_witness :
  (exists cen : point,
     @centroid float _ [[1; 3]; [2; 6]]%float = Ok cen /\
     length cen = 2 /\
     (forall j col, nth_error [[1; 3]; [2; 6]]%float j = Some col ->
        exists q, column_mean col = Ok q /\ nth_error cen j = Some [q]) /\
     (forall g : Rng, pure_call (@centroid float _ [[1; 3]; [2; 6]]%float) g = (Ok cen, g))) /\
  @centroid R real_arith [[1; 3]; [2; 6]]%R
  = Ok (map (fun col => [(fsum col / INR 2)%R]) [[1; 3]; [2; 6]]%R).
Proof.
  split.
  - apply (proj1 centroid_is_column_mean float float_arith [[1; 3]; [2; 6]]%float 2).
    + intros a. eexists. reflexivity.
    + repeat constructor.
  - apply (proj2 centroid_is_column_mean [[1; 3]; [2; 6]]%R 2).
    + lia.
    + repeat constructor.
Defined.

(** The notebook prints "Distance between (-1,-1) and (2,3): 5.0". *)
Example distance_example :
  @distance float _ [[-1]; [-1]]%float [[2]; [3]]%float = Ok 5%float.
Proof. vm_compute. reflexivity. Qed.

Example centroid_example :
  @centroid float _ [[1; 3]; [2; 6]]%float = Ok [[2]; [4]]%float.
Proof. vm_compute. reflexivity. Qed.

(** ** The Assignment Engine *)

Section ReassignFacts.

Context {F : Type} {PF : PyFloat F}.

Lemma foldM_app {A S : Type} (f : S -> A -> result S) (l1 l2 : list A) (acc : S) :
  foldM f (l1 ++ l2) acc = (acc' <- foldM f l1 acc ;; foldM f l2 acc').
Proof.
  revert acc. induction l1 as [|a l1 IH]; intros acc; simpl; [reflexivity|].
  destruct (f acc a); simpl; [apply IH | reflexivity].
Qed.

(** The outer loop is the inner loop run for every index, followed by the
    bookkeeping of [membership] and [scores]. *)
Lemma reassign_loop (x : dataset) (cents : dict) (idxs : list nat)
      (mem0 : list label) (sc0 : list (label * F)) :
  foldM (fun ms idx =>
           best <- nearest x cents idx ;;
           Ok (fst ms ++ [snd best], add_score (snd ms) best)) idxs (mem0, sc0)
  = (bests <- mapM (nearest x cents) idxs ;;
     Ok (mem0 ++ map snd bests, fold_left add_score bests sc0)).
Proof.
  revert mem0 sc0. induction idxs as [|idx idxs IH]; intros mem0 sc0; simpl.
  - now rewrite app_nil_r.
  - destruct (nearest x cents idx) as [best|e]; simpl; [|reflexivity].
    rewrite IH. destruct (mapM (nearest x cents) idxs) as [bests|e]; simpl; [|reflexivity].
    now rewrite <- app_assoc.
Qed.

Lemma reassign_eq (x : dataset) (cents : dict) :
  reassign x cents
  = (x0 <- index x 0 ;;
     bests <- mapM (nearest x cents) (seq 0 (length x0)) ;;
     total <- fdiv (fsum (map snd (fold_left add_score bests [])))
                   (of_len (length x0)) ;;
     Ok (map snd bests, total)).
Proof.
  unfold reassign. destruct (index x 0) as [x0|e]; simpl; [|reflexivity].
  rewrite reassign_loop.
  destruct (mapM (nearest x cents) (seq 0 (length x0))); reflexivity.
Qed.

(** The label of point [idx] in the new membership is the one the inner
    loop ended with. *)
Lemma reassign_label (x : dataset) (cents : dict) (mem : list label) (cost : F)
      (x0 : list F) (idx : nat) :
  reassign x cents = Ok (mem, cost) -> index x 0 = Ok x0 -> idx < length x0 ->
  exists best, nearest x cents idx = Ok best /\ nth_error mem idx = Some (snd best).
Proof.
  intros H Hx0 Hidx. rewrite reassign_eq, Hx0 in H. simpl in H.
  destruct (mapM (nearest x cents) (seq 0 (length x0))) as [bests|e] eqn:E;
    simpl in H; [|discriminate].
  destruct (fdiv _ _); simpl in H; [|discriminate]. inversion H; subst.
  assert (Hnth : nth_error (seq 0 (length x0)) idx = Some idx).
  { rewrite nth_error_seq. destruct (Nat.ltb_spec idx (length x0)); [reflexivity | lia]. }
  destruct (mapM_nth_error _ _ _ E Hnth) as [best [Hb Hn]].
  exists best. split; [exact Hb|]. now rewrite nth_error_map, Hn.
Qed.

Lemma reassign_length (x : dataset) (cents : dict) (mem : list label) (cost : F)
      (x0 : list F) :
  reassign x cents = Ok (mem, cost) -> index x 0 = Ok x0 -> length mem = length x0.
Proof.
  intros H Hx0. rewrite reassign_eq, Hx0 in H. simpl in H.
  destruct (mapM (nearest x cents) (seq 0 (length x0))) as [bests|e] eqn:E;
    simpl in H; [|discriminate].
  destruct (fdiv _ _); simpl in H; [|discriminate]. inversion H; subst.
  rewrite length_map, (mapM_length _ _ E). apply length_seq.
Qed.

Lemma inner_rounds_scan (x : dataset) (idx : nat) (cents : dict) (best : F * label) :
  foldM (inner_round x idx) cents best
  = (ds <- distances_from x cents idx ;;
     Ok (scan (combine (map fst cents) ds) best)).
Proof.
  unfold distances_from. revert best.
  induction cents as [|cvc cents IH]; intros best; simpl; [reflexivity|].
  unfold inner_round at 1.
  destruct (point_at x idx) as [p|e]; simpl; [|reflexivity].
  destruct (distance (snd cvc) p) as [d|e]; simpl; [|reflexivity].
  rewrite IH.
  destruct (mapM _ cents) as [ds|e]; reflexivity.
Qed.

(** When no distance is below [sys.maxsize] the inner loop ends as it
    started, with the sentinel and the label [None]. *)
Lemma nearest_none (x : dataset) (cents : dict) (idx : nat) (ds : list F) :
  distances_from x cents idx = Ok ds ->
  Forall (fun d => flt d maxsize = false) ds ->
  nearest x cents idx = Ok (maxsize, None).
Proof.
  intros Hds Hall. unfold nearest. rewrite inner_rounds_scan, Hds. simpl. f_equal.
  clear Hds. unfold scan. generalize (map fst cents). intros ls. revert ls.
  induction Hall as [|d ds Hd _ IH]; intros [|l ls]; simpl; try reflexivity.
  unfold closer at 2. simpl. rewrite Hd. apply IH.
Qed.

Lemma rounds_farther (x : dataset) (idx : nat) (p : point) (d : F) (l : dict)
      (best0 : F * label) :
  point_at x idx = Ok p ->
  Forall (fun cv => exists d', distance (snd cv) p = Ok d' /\ flt d d' = true) l ->
  flt d (fst best0) = true ->
  exists best, foldM (inner_round x idx) l best0 = Ok best /\ flt d (fst best) = true.
Proof.
  intros Hp Hl. revert best0. induction Hl as [|cv l [d' [Hd' Hlt]] _ IH];
    intros best0 H0; simpl.
  - eauto.
  - unfold inner_round at 1. rewrite Hp. simpl. rewrite Hd'. simpl.
    apply IH. unfold closer. destruct (flt d' (fst best0)); assumption.
Qed.

Lemma rounds_not_nearer (x : dataset) (idx : nat) (p : point) (d : F) (c : label)
      (l : dict) :
  (forall a : F, flt a a = false) ->
  point_at x idx = Ok p ->
  Forall (fun cv => exists d', distance (snd cv) p = Ok d' /\
                               (d' = d \/ flt d' d = false)) l ->
  foldM (inner_round x idx) l (d, c) = Ok (d, c).
Proof.
  intros Hirr Hp Hl. induction Hl as [|cv l [d' [Hd' Hge]] _ IH]; simpl.
  - reflexivity.
  - unfold inner_round at 1. rewrite Hp. simpl. rewrite Hd'. simpl.
    unfold closer. simpl.
    replace (flt d' d) with false; [exact IH|].
    destruct Hge as [-> | ->]; [now rewrite Hirr | reflexivity].
Qed.

Lemma nearest_first_minimum (x : dataset) (before after : dict) (c : label)
      (vc : point) (idx : nat) (p : point) (d : F) :
  (forall a : F, flt a a = false) ->
  point_at x idx = Ok p ->
  distance vc p = Ok d ->
  flt d maxsize = true ->
  Forall (fun cv => exists d', distance (snd cv) p = Ok d' /\ flt d d' = true) before ->
  Forall (fun cv => exists d', distance (snd cv) p = Ok d' /\
                               (d' = d \/ flt d' d = false)) after ->
  nearest x (before ++ (c, vc) :: after) idx = Ok (d, c).
Proof.
  intros Hirr Hp Hd Hmax Hb Ha. unfold nearest.
  rewrite foldM_app.
  destruct (@rounds_farther x idx p d before (maxsize, None) Hp Hb Hmax) as [best [-> Hbest]].
  simpl. unfold inner_round at 1. rewrite Hp. simpl. rewrite Hd. simpl.
  unfold closer. rewrite Hbest. now apply rounds_not_nearer with (p := p).
Qed.

End ReassignFacts.

Lemma point_at_idx_lt {F : Type} (x0 : list F) (rest : dataset) (idx : nat) (p : point) :
  point_at (x0 :: rest) idx = Ok p -> idx < length x0.
Proof.
  unfold point_at. simpl. unfold index at 1.
  destruct (nth_error x0 idx) eqn:E; simpl; [|discriminate].
  intros _. apply nth_error_Some. congruence.
Qed.

(** Comparison of binary64 numbers: nothing is below itself. *)
Lemma float_ltb_irrefl (a : float) : PrimFloat.ltb a a = false.
Proof.
  rewrite ltb_spec. unfold SpecFloat.SFltb.
  destruct (SpecFloat.SFcompare (Prim2SF a) (Prim2SF a)) as [[]|] eqn:E;
    try reflexivity.
  exfalso. unfold SpecFloat.SFcompare in E.
  destruct (Prim2SF a) as [ | [] | | [] m e]; try discriminate;
    rewrite Z.compare_refl, Pos.compare_cont_refl in E; discriminate.
Qed.

Lemma Rltb_irrefl (a : R) : Rltb a a = false.
Proof. unfold Rltb. destruct (Rlt_dec a a) as [H|H]; [lra | reflexivity]. Qed.

(** C5.  Two calls of [reassign] in a row with the same point set and the
    same centroid mapping give the same outcome, membership and cost alike
    (or the same exception), and leave the random generator untouched. *)
Theorem reassign_twice_same :
  forall (F : Type) (PF : PyFloat F) (x : dataset) (centroids : dict) (g : Rng),
    twice (pure_call (reassign x centroids)) g
    = (res_map (fun r => (r, r)) (reassign x centroids), g).
Proof.
  intros F PF x centroids g. unfold twice, bindM, pure_call, retM, res_map.
  destruct (reassign x centroids); reflexivity.
Qed.

(** By contrast two calls of [guess_clusters] in a row need not agree. *)
Example guess_clusters_twice_differs :
  fst (twice (@guess_clusters float [[0; 0]]%float 2) (cycle [0; 1; 1; 0]))
  = Ok (Some [Some "red"; Some "orange"], Some [Some "orange"; Some "red"])%string.
Proof. vm_compute. reflexivity. Qed.

(** C6, as the code has it.  With a comparison [<] under which nothing is
    below itself, as in binary64: when the centroid [c] is nearer to point
    [idx] than every centroid before it in the mapping, at a distance below
    [sys.maxsize], and no centroid after it is nearer (each is at the same
    distance or not below it), the inner loop ends with [c], so [reassign]
    labels the point [c]: a later centroid at the same distance never
    replaces it.  When no centroid is nearer than [sys.maxsize], the inner
    loop ends with the label [None]. *)
Theorem reassign_tie_goes_to_first :
  (forall (F : Type) (PF : PyFloat F) (x : dataset) (before after : dict)
          (c : label) (vc : point) (idx : nat) (p : point) (d : F),
      (forall a : F, flt a a = false) ->
      point_at x idx = Ok p ->
      distance vc p = Ok d ->
      flt d maxsize = true ->
      Forall (fun cv => exists d', distance (snd cv) p = Ok d' /\ flt d d' = true)
             before ->
      Forall (fun cv => exists d', distance (snd cv) p = Ok d' /\
                                   (d' = d \/ flt d' d = false)) after ->
      nearest x (before ++ (c, vc) :: after) idx = Ok (d, c) /\
      (forall mem cost,
          reassign x (before ++ (c, vc) :: after) = Ok (mem, cost) ->
          nth_error mem idx = Some c)) /\
  (forall (F : Type) (PF : PyFloat F) (x : dataset) (centroids : dict) (idx : nat)
          (ds : list F),
      distances_from x centroids idx = Ok ds ->
      Forall (fun d => flt d maxsize = false) ds ->
      nearest x centroids idx = Ok (maxsize, None)).
Proof.
  split.
  - intros F PF x before after c vc idx p d Hirr Hp Hd Hmax Hb Ha.
    assert (Hn : nearest x (before ++ (c, vc) :: after) idx = Ok (d, c))
      by now apply nearest_first_minimum with (p := p).
    split; [exact Hn|]. intros mem cost Hr.
    destruct x as [|x0 rest]; [discriminate|].
    destruct (reassign_label _ _ Hr (index_cons_0 x0 rest) (point_at_idx_lt _ _ _ Hp))
      as [best [Hbest Hnth]].
    rewrite Hn in Hbest. inversion Hbest; subst. exact Hnth.
  - intros F PF x centroids idx ds. apply nearest_none.
Qed.

(** A point at distance 1 of "red" and of "orange", and 5 of "yellow". *)
Lemma reassign_tie_goes_to_first_witness :
  @nearest float _ [[0; 4]]%float
     [(Some "red", [[1]]); (Some "orange", [[-1]]); (Some "yellow", [[5]])]%string%float 0
  = Ok (1%float, Some "red"%string) /\
  (forall mem cost,
      @reassign float _ [[0; 4]]%float
        [(Some "red", [[1]]); (Some "orange", [[-1]]); (Some "yellow", [[5]])]%string%float
      = Ok (mem, cost) ->
      nth_error mem 0 = Some (Some "red"%string)).
Proof.
  apply (proj1 reassign_tie_goes_to_first float float_arith [[0; 4]]%float []
           [(Some "orange", [[-1]]); (Some "yellow", [[5]])]%string%float
           (Some "red"%string) [[1]]%float 0 [[0]]%float 1%float).
  - exact float_ltb_irrefl.
  - reflexivity.
  - vm_compute. reflexivity.
  - vm_compute. reflexivity.
  - constructor.
  - repeat constructor.
    + exists 1%float. split; [vm_compute; reflexivity | now left].
    + exists 5%float. split; [vm_compute; reflexivity | right; vm_compute; reflexivity].
Defined.

(** C6, as stated, fails: a point at the same distance 1e19 of "red" and of
    "orange", which is not below [sys.maxsize], is labelled [None], not with
    the first of the two. *)
Lemma tie_beyond_sentinel_counterexample :
  ~ (forall (x : @dataset float) (before after : dict) (c : label) (vc : point)
            (idx : nat) (p : point) (d : float),
        point_at x idx = Ok p ->
        distance vc p = Ok d ->
        Forall (fun cv => exists d', distance (snd cv) p = Ok d' /\ flt d d' = true)
               before ->
        Forall (fun cv => exists d', distance (snd cv) p = Ok d' /\
                                     (d' = d \/ flt d' d = false)) after ->
        forall mem cost,
          reassign x (before ++ (c, vc) :: after) = Ok (mem, cost) ->
          nth_error mem idx = Some c).
Proof.
  intros H.
  specialize (H [[1e19]]%float [] [(Some "orange"%string, [[0]]%float)]
                (Some "red"%string) [[0]]%float 0 [[1e19]]%float 1e19%float).
  assert (Hnone : nth_error [@None string] 0 = Some (Some "red"%string)).
  { apply (H eq_refl) with (cost := 0x1p63%float).
    - vm_compute. reflexivity.
    - constructor.
    - repeat constructor. exists 1e19%float.
      split; [vm_compute; reflexivity | now left].
    - vm_compute. reflexivity. }
  discriminate Hnone.
Qed.

(** ** Random initialization *)

Section GuessFacts.

Lemma guess_labels_in_co (n : nat) (k : Z) (g g' : Rng) (m : list label) :
  guess_labels n k g = (Ok m, g') ->
  length m = n /\ Forall (fun l => exists s, l = Some s /\ In s co) m.
Proof.
  revert g g' m. induction n as [|n IH]; intros g g' m; simpl.
  - unfold retM. intros H. inversion H; subst. split; constructor.
  - unfold bindM at 1. destruct (random_choice_range k g) as [[j|e] g1]; [|discriminate].
    unfold bindM at 1, pure_call at 1, index.
    destruct (nth_error co j) as [s|] eqn:Es; [|discriminate].
    unfold bindM, retM. destruct (guess_labels n k g1) as [[rest|e] g2] eqn:Er;
      [|discriminate].
    intros H. inversion H; subst. destruct (IH _ _ _ Er) as [Hlen Hall].
    split; [simpl; now rewrite Hlen|].
    constructor; [|exact Hall]. exists s. split; [reflexivity|].
    exact (nth_error_In co j Es).
Qed.

(** A draw of 8 or more among nine or more labels falls off the list [co]. *)
Lemma guess_labels_off_list (n : nat) (k : Z) :
  (9 <= k)%Z ->
  guess_labels (S n) k (constant_rng 8) = (Raise IndexError, constant_rng 8).
Proof.
  intros Hk. simpl. unfold bindM at 1, random_choice_range.
  destruct (Z.leb_spec k 0); [lia|].
  unfold constant_rng. rewrite Nat.mod_small by lia. reflexivity.
Qed.


End GuessFacts.

(** C10.  For a point set of at least one point and any [k] of 9 or more,
    some state of the random generator makes the initialization index the
    list of 8 colour names out of range, and [k_means] raises [IndexError]
    whatever the fuel; and whenever the initialization does return, every
    label is one of the 8 names. *)
Theorem k_means_more_than_8_clusters :
  forall (F : Type) (PF : PyFloat F) (SO : SetOrder) (x0 : list F) (rest : dataset)
         (k : Z) (fuel : nat),
    1 <= length x0 ->
    (9 <= k)%Z ->
    (exists g : Rng, fst (k_means fuel (x0 :: rest) k g) = Some (Raise IndexError)) /\
    (forall (g g' : Rng) (m : list label),
        guess_clusters (x0 :: rest) k g = (Ok (Some m), g') ->
        Forall (fun l => exists s, l = Some s /\ In s co) m) /\
    length co = 8.
Proof.
  intros F PF SO x0 rest k fuel Hn Hk. split; [|split; [|reflexivity]].
  - exists (constant_rng 8). unfold k_means, k_means_count, guess_clusters.
    unfold bindM at 1, pure_call at 1. rewrite index_cons_0.
    destruct (length x0) as [|n] eqn:En; [lia|].
    unfold bindM. rewrite guess_labels_off_list by exact Hk. reflexivity.
  - intros g g' m. unfold guess_clusters.
    unfold bindM at 1, pure_call at 1. rewrite index_cons_0.
    destruct (length x0) as [|n] eqn:En; [lia|].
    unfold bindM, retM. destruct (guess_labels (S n) k g) as [[m'|e] g1] eqn:E;
      [|discriminate].
    intros H. inversion H; subst. exact (proj2 (guess_labels_in_co _ _ _ E)).
Qed.

Lemma k_means_more_than_8_clusters_witness :
  (exists g : Rng,
      fst (@k_means float float_arith first_seen_order 5 [[1; 2; 3]]%float 9 g)
      = Some (Raise IndexError)) /\
  (forall (g g' : Rng) (m : list label),
      @guess_clusters float [[1; 2; 3]]%float 9 g = (Ok (Some m), g') ->
      Forall (fun l => exists s, l = Some s /\ In s co) m) /\
  length co = 8.
Proof.
  apply (@k_means_more_than_8_clusters float float_arith first_seen_order
           [1; 2; 3]%float [] 9%Z 5).
  - simpl. lia.
  - lia.
Defined.

(** ** The Lloyd Iterator *)

Section LoopFacts.

Context {F : Type} {PF : PyFloat F} {SO : SetOrder}.

Lemma loop_body_iterations (data : dataset) (st st' : loop_state) :
  loop_body data st = Ok st' -> iterations st' = S (iterations st).
Proof.
  unfold loop_body. destruct (get_centroids data (membership st)); simpl; [|discriminate].
  destruct (reassign data a); simpl; [|discriminate].
  intros H. inversion H; subst. reflexivity.
Qed.

Lemma passes_iterations (data : dataset) (m : nat) (st st' : loop_state) :
  passes data m st st' -> iterations st' = iterations st + m.
Proof.
  induction 1 as [st | m st st1 st' _ Hb _ IH]; [lia|].
  rewrite IH, (loop_body_iterations _ _ Hb). lia.
Qed.

(** The loop returns at the first state that fails its test, however many
    passes that takes. *)
Lemma k_loop_returns (data : dataset) (m : nat) (st st' : loop_state) :
  passes data m st st' -> continues st' = false ->
  forall fuel, m <= fuel -> k_loop fuel data st = Some (loop_return st').
Proof.
  induction 1 as [st | m st st1 st' Hc Hb _ IH]; intros Hstop fuel Hfuel.
  - destruct fuel; simpl; now rewrite Hstop.
  - destruct fuel as [|fuel]; [lia|]. simpl. rewrite Hc, Hb. apply IH; [exact Hstop | lia].
Qed.


(** A run that returns has come to a state that fails the test. *)
Lemma k_loop_returned (data : dataset) (fuel : nat) (st : loop_state)
      (r : run_result) (it : nat) :
  k_loop fuel data st = Some (Ok (r, it)) ->
  exists m st', passes data m st st' /\ continues st' = false /\
                loop_return st' = Ok (r, it).
Proof.
  revert st. induction fuel as [|fuel IH]; intros st; simpl.
  - destruct (continues st) eqn:Hc; [discriminate|].
    intros H. inversion H. exists 0, st. repeat split; auto. constructor.
  - destruct (continues st) eqn:Hc.
    + destruct (loop_body data st) as [st1|e] eqn:Hb; [|discriminate].
      intros H. destruct (IH _ H) as [m [st' [Hp [Hs Hr]]]].
      exists (S m), st'. repeat split; auto. econstructor; eauto.
    + intros H. inversion H. exists 0, st. repeat split; auto. constructor.
Qed.

Lemma loop_return_iterations (st : @loop_state F) (r : run_result) (it : nat) :
  loop_return st = Ok (r, it) -> it = iterations st.
Proof.
  unfold loop_return. destruct (c st); [|discriminate]. intros H. now inversion H.
Qed.

End LoopFacts.


(** C2, as the code has it.  The current cost starts at 0 (not at a large
    number) and the last cost at [sys.maxsize]; when the first test
    [abs(sys.maxsize - 0.0) > 1e-7] holds, as it does in both arithmetics,
    every run that returns has made at least one pass of the loop body; and
    one pass is enough when the cost it finds is within the threshold of 0,
    the initial current cost. *)
Theorem k_means_at_least_one_pass :
  forall (F : Type) (PF : PyFloat F) (SO : SetOrder) (data : dataset),
    flt threshold (fabs (fsub maxsize f0)) = true ->
    (forall m, score (initial_state m) = f0 /\
               last_score (initial_state m) = maxsize /\
               continues (initial_state m) = true) /\
    (forall (fuel : nat) (k : Z) (g : Rng) (r : run_result) (it : nat),
        fst (k_means_count fuel data k g) = Some (Ok (r, it)) -> 1 <= it) /\
    (forall m st1,
        loop_body data (initial_state m) = Ok st1 ->
        last_score st1 = f0 /\
        (flt threshold (fabs (fsub f0 (score st1))) = false ->
         forall fuel, 1 <= fuel ->
                      k_loop fuel data (initial_state m) = Some (loop_return st1))).
Proof.
  intros F PF SO data Hfirst.
  assert (Hinit : forall m, continues (initial_state m) = true) by (intros m; exact Hfirst).
  split; [intros m; repeat split; apply Hinit|]. split.
  - intros fuel k g r it Hrun. unfold k_means_count in Hrun.
    destruct (guess_clusters data k g) as [[m|e] g']; simpl in Hrun; [|discriminate].
    destruct (k_loop_returned _ _ _ Hrun) as [n [st' [Hp [Hstop Hret]]]].
    rewrite (loop_return_iterations _ Hret), (passes_iterations Hp). simpl.
    destruct n as [|n]; [|lia].
    inversion Hp; subst. rewrite Hinit in Hstop. discriminate.
  - intros m st1 Hb.
    assert (Hlast : last_score st1 = f0).
    { unfold loop_body in Hb.
      destruct (get_centroids _ _); simpl in Hb; [|discriminate].
      destruct (reassign _ _); simpl in Hb; [|discriminate].
      apply (f_equal (fun r => match r with Ok st => last_score st | Raise _ => f0 end)) in Hb.
      simpl in Hb. now symmetry. }
    split; [exact Hlast|]. intros Hstop fuel Hfuel.
    apply k_loop_returns with (m := 1); [|unfold continues; now rewrite Hlast | exact Hfuel].
    apply passes_S with (st1 := st1); [apply Hinit | exact Hb | constructor].
Qed.

Lemma k_means_at_least_one_pass_witness :
  (forall m, score (@initial_state float _ m) = 0%float /\
             last_score (@initial_state float _ m) = 0x1p63%float /\
             continues (@initial_state float _ m) = true) /\
  (forall (fuel : nat) (k : Z) (g : Rng) (r : run_result) (it : nat),
      fst (@k_means_count float float_arith first_seen_order fuel [[0; 4]]%float k g)
      = Some (Ok (r, it)) -> 1 <= it) /\
  (forall m st1,
      @loop_body float float_arith first_seen_order [[0; 4]]%float (initial_state m)
      = Ok st1 ->
      last_score st1 = 0%float /\
      (PrimFloat.ltb 0x1.ad7f29abcaf48p-24
                     (PrimFloat.abs (PrimFloat.sub 0 (score st1))) = false ->
       forall fuel, 1 <= fuel ->
                    k_loop fuel [[0; 4]]%float (initial_state m)
                    = Some (loop_return st1))).
Proof.
  exact (@k_means_at_least_one_pass float float_arith first_seen_order
           [[0; 4]]%float eq_refl).
Defined.

(** C2, as stated, fails: on a single point with k = 1 the run returns after
    one pass of the body (its first cost, 0, is within the threshold of the
    initial current cost 0), so two passes are not forced; and the initial
    current cost is 0, below 1. *)
Lemma k_means_single_pass_counterexample :
  flt (score (@initial_state float _ None)) 1%float = true /\
  ~ (forall (fuel : nat) (data : dataset) (k : Z) (g : Rng) (r : run_result) (it : nat),
        fst (@k_means_count float float_arith first_seen_order fuel data k g)
        = Some (Ok (r, it)) ->
        2 <= it).
Proof.
  split; [vm_compute; reflexivity|].
  intros H.
  specialize (H 5 [[1]]%float 1%Z (cycle [0])
                (Some [Some "red"], [(Some "red", [[1]])], 0)%string%float 1).
  assert (Hrun : fst (@k_means_count float float_arith first_seen_order 5 [[1]]%float
                        1%Z (cycle [0]))
                 = Some (Ok ((Some [Some "red"], [(Some "red", [[1]])], 0)%string%float, 1)))
    by (vm_compute; reflexivity).
  specialize (H Hrun). lia.
Qed.

(** *** Comparison of binary64 numbers *)








(** ** Labels and set traversal *)

Lemma label_eqb_eq (a b : label) : label_eqb a b = true <-> a = b.
Proof.
  destruct a as [s|], b as [t|]; simpl; split; intros H;
    try discriminate; try reflexivity.
  - apply String.eqb_eq in H. now subst.
  - inversion H. apply String.eqb_refl.
Qed.

Lemma label_eqb_refl (a : label) : label_eqb a a = true.
Proof. now apply label_eqb_eq. Qed.

Lemma first_seen_In (l : list label) (a : label) : In a (first_seen l) <-> In a l.
Proof.
  induction l as [|b l IH]; simpl; [reflexivity|].
  rewrite filter_In, IH. split.
  - intros [H | [H _]]; auto.
  - intros [H | H]; [now left|].
    destruct (label_eqb a b) eqn:E.
    + apply label_eqb_eq in E. now left.
    + right. now split.
Qed.

Lemma first_seen_NoDup (l : list label) : NoDup (first_seen l).
Proof.
  induction l as [|b l IH]; simpl; constructor.
  - rewrite filter_In. intros [_ H]. now rewrite label_eqb_refl in H.
  - now apply NoDup_filter.
Qed.

Lemma first_seen_ok : set_iter_ok first_seen_order.
Proof. intros l. split; [apply first_seen_NoDup | apply first_seen_In]. Qed.

(** ** Which subsets reach [centroid] *)

Section SubsetFacts.

Context {F : Type} {PF : PyFloat F} {SO : SetOrder}.

(** A label that some point carries selects at least one value of a column
    that has a value for every label. *)
Lemma selected_nonempty (col : list F) (m : list label) (i : label) :
  In i m -> length col = length m ->
  1 <= length (map fst (filter (fun il => label_eqb (snd il) i) (combine col m))).
Proof.
  revert col. induction m as [|l m IH]; intros col Hin Hlen; [contradiction|].
  destruct col as [|v col]; [discriminate|]. simpl.
  destruct (label_eqb l i) eqn:E; simpl; [lia|].
  destruct Hin as [-> | Hin]; [now rewrite label_eqb_refl in E|].
  apply IH; [exact Hin | simpl in Hlen; lia].
Qed.

Lemma guess_clusters_shape (data : @dataset F) (k : Z) (g g' : Rng)
      (m : option (list label)) :
  guess_clusters data k g = (Ok m, g') ->
  exists x0 rest,
    data = x0 :: rest /\
    match m with
    | Some l => length l = length x0 /\ 1 <= length x0
    | None => length x0 = 0
    end.
Proof.
  unfold guess_clusters, bindM at 1, pure_call at 1.
  destruct data as [|x0 rest]; [discriminate|]. rewrite index_cons_0.
  intros H. exists x0, rest. split; [reflexivity|].
  destruct (length x0) as [|n] eqn:En.
  - unfold retM in H. now inversion H.
  - unfold bindM, retM in H.
    destruct (guess_labels (S n) k g) as [[l|e] g1] eqn:E; [|discriminate].
    inversion H; subst. destruct (guess_labels_in_co _ _ _ E) as [Hl _]. lia.
Qed.

(** In every state of a run the membership, once it is a list, has one
    label per point, and there is at least one point. *)
Lemma reachable_shape (data : dataset) (k : Z) (g : Rng) (st : loop_state) :
  reachable data k g st ->
  exists x0 rest,
    data = x0 :: rest /\
    match membership st with
    | Some l => length l = length x0 /\ 1 <= length x0
    | None => length x0 = 0
    end.
Proof.
  induction 1 as [m g' Hg | st st' _ [x0 [rest [Hd IH]]] _ Hb].
  - exact (guess_clusters_shape _ _ _ Hg).
  - exists x0, rest. split; [exact Hd|].
    unfold loop_body in Hb.
    destruct (membership st) as [l|]; [|discriminate].
    destruct (get_centroids data (Some l)) as [cs|e]; simpl in Hb; [|discriminate].
    destruct (reassign data cs) as [[mem cost]|e] eqn:Er; simpl in Hb; [|discriminate].
    inversion Hb; subst; simpl.
    split; [|tauto]. eapply reassign_length; [exact Er | reflexivity].
Qed.

(** The states the loop passes through are those of [reachable]. *)
Lemma passes_reachable (data : dataset) (k : Z) (g : Rng) (n : nat)
      (st st' : loop_state) :
  reachable data k g st -> passes data n st st' -> reachable data k g st'.
Proof.
  intros Hr Hp. induction Hp as [st | n st st1 st' Hc Hb _ IH]; [exact Hr|].
  apply IH. now apply reachable_pass with (st := st).
Qed.

(** The keys of the centroid mapping are the labels of the membership, in
    the order the set is traversed. *)
Lemma get_centroids_keys (x : dataset) (m : list label) (cs : dict) :
  get_centroids x (Some m) = Ok cs -> map fst cs = set_iter m.
Proof.
  simpl. generalize (set_iter m). intros l. revert cs.
  induction l as [|i l IH]; simpl; intros cs H.
  - now inversion H.
  - destruct (centroid (select_members x m i)); simpl in H; [|discriminate].
    destruct (mapM _ l) as [cs'|e]; simpl in H; [|discriminate].
    inversion H; subst. simpl. now rewrite (IH cs').
Qed.

End SubsetFacts.

Section CentroidCalls.

Context {F : Type} {PF : PyFloat F} {SO : SetOrder}.

Lemma selected_length_le (col : list F) (m : list label) (i : label) :
  length (map fst (filter (fun il => label_eqb (snd il) i) (combine col m)))
  <= length col.
Proof.
  rewrite length_map.
  etransitivity; [apply filter_length_le|].
  rewrite length_combine. apply Nat.le_min_l.
Qed.

(** [centroid] returns as soon as sums can be divided by the length of the
    first column. *)
Lemma centroid_total (col0 : list F) (cols : dataset) :
  (forall a : F, exists q, fdiv a (of_len (length col0)) = Ok q) ->
  exists cen, centroid (col0 :: cols) = Ok cen.
Proof.
  intros Hdiv. unfold centroid.
  assert (H : forall x : dataset,
             exists cen,
               mapM (fun col =>
                       x0 <- index (col0 :: cols) 0 ;;
                       q <- fdiv (fsum col) (of_len (length x0)) ;;
                       Ok [q]) x = Ok cen).
  { induction x as [|col x [cen IH]]; simpl in *; [eauto|].
    destruct (Hdiv (fsum col)) as [q ->]. simpl. rewrite IH. simpl. eauto. }
  apply H.
Qed.

(** The subsets a pass hands to [centroid] hold at least one point. *)
Lemma reachable_subsets_nonempty (data : dataset) (k : Z) (g : Rng)
      (st : loop_state) (m : list label) (i : label) :
  set_iter_ok SO ->
  reachable data k g st -> membership st = Some m -> In i (set_iter m) ->
  exists col cols,
    select_members data m i = col :: cols /\
    1 <= length col <= length (hd [] data).
Proof.
  intros Hso Hr Hm Hi.
  destruct (reachable_shape Hr) as [x0 [rest [-> Hshape]]].
  rewrite Hm in Hshape. destruct Hshape as [Hlen _].
  apply (proj2 (Hso m)) in Hi. simpl. eexists. eexists. split; [reflexivity|].
  split; [apply selected_nonempty; auto | apply selected_length_le].
Qed.

Lemma reachable_get_centroids (data : dataset) (k : Z) (g : Rng)
      (st : loop_state) (m : list label) :
  set_iter_ok SO ->
  (forall (a : F) (n : nat),
      1 <= n <= length (hd [] data) -> exists q, fdiv a (of_len n) = Ok q) ->
  reachable data k g st -> membership st = Some m ->
  exists cs, get_centroids data (Some m) = Ok cs.
Proof.
  intros Hso Hdiv Hr Hm. simpl.
  assert (Hall : forall i, In i (set_iter m) ->
                           exists cen, centroid (select_members data m i) = Ok cen).
  { intros i Hi.
    destruct (reachable_subsets_nonempty i Hso Hr Hm Hi) as [col [cols [-> Hcol]]].
    apply centroid_total. intros a. now apply Hdiv. }
  revert Hall. generalize (set_iter m). intros l.
  induction l as [|i l IH]; intros Hall; simpl; [eauto|].
  destruct (Hall i (or_introl eq_refl)) as [cen ->]. simpl.
  destruct IH as [cs ->]; [intros j Hj; apply Hall; now right|]. simpl. eauto.
Qed.

End CentroidCalls.

(** Three labels are drawn; after the first pass no point is nearest to the
    centroid of "red" (5), and the run ends with two centroids. *)
Lemma lost_cluster_run :
  fst (guess_clusters lost_cluster_data 3 lost_cluster_rng)
  = Ok (Some [Some "red"; Some "red"; Some "orange"; Some "orange";
              Some "yellow"; Some "yellow"])%string /\
  exists (cs : dict) (cost : float),
    fst (@k_means float float_arith first_seen_order 10 lost_cluster_data 3
                  lost_cluster_rng)
    = Some (Ok (Some [Some "orange"; Some "yellow"; Some "orange"; Some "orange";
                      Some "yellow"; Some "yellow"]%string, cs, cost)) /\
    map fst cs = [Some "orange"; Some "yellow"]%string.
Proof.
  split; [vm_compute; reflexivity|].
  eexists. eexists. split; [vm_compute; reflexivity | reflexivity].
Qed.

(** C7.  The states the loop of a run of [k_means] passes through are
    reachable, and in every reachable state each subset that [get_centroids]
    hands to [centroid] holds at least one point, so that (where a sum can be
    divided by a count from 1 to n) every centroid of the pass is computed;
    the keys of the centroid mapping are exactly the labels present in the
    membership, each once, so a label no point carries has no centroid in
    the next pass; and a run with k = 3 can end with two centroids. *)
Theorem centroid_never_sees_empty_subset :
  (forall (F : Type) (PF : PyFloat F) (SO : SetOrder) (data : dataset) (k : Z)
          (g g' : Rng) (m0 : option (list label)) (n : nat) (st : loop_state),
      guess_clusters data k g = (Ok m0, g') ->
      passes data n (initial_state m0) st ->
      reachable data k g st) /\
  (forall (F : Type) (PF : PyFloat F) (SO : SetOrder) (data : dataset) (k : Z)
          (g : Rng) (st : loop_state) (m : list label),
      set_iter_ok SO ->
      reachable data k g st -> membership st = Some m ->
      (forall i, In i (set_iter m) ->
         exists col cols,
           select_members data m i = col :: cols /\
           1 <= length col <= length (hd [] data)) /\
      ((forall (a : F) (n : nat),
           1 <= n <= length (hd [] data) -> exists q, fdiv a (of_len n) = Ok q) ->
       exists cs, get_centroids data (Some m) = Ok cs)) /\
  (forall (F : Type) (PF : PyFloat F) (SO : SetOrder) (x : dataset)
          (m : list label) (cs : dict),
      set_iter_ok SO ->
      get_centroids x (Some m) = Ok cs ->
      NoDup (map fst cs) /\ (forall l, In l (map fst cs) <-> In l m)) /\
  (exists (mem : list label) (cs : dict) (cost : float),
      fst (@k_means float float_arith first_seen_order 10 lost_cluster_data 3
                    lost_cluster_rng)
      = Some (Ok (Some mem, cs, cost)) /\
      length cs < 3).
Proof.
  split; [|split; [|split]].
  - intros F PF SO data k g g' m0 n st Hg Hp.
    apply passes_reachable with (n := n) (st := initial_state m0); [|exact Hp].
    now apply reachable_init with (g' := g').
  - intros F PF SO data k g st m Hso Hr Hm. split.
    + intros i Hi. now apply reachable_subsets_nonempty with (k := k) (g := g) (st := st).
    + intros Hdiv. now apply reachable_get_centroids with (k := k) (g := g) (st := st).
  - intros F PF SO x m cs Hso Hcs.
    rewrite (get_centroids_keys _ _ Hcs). apply Hso.
  - destruct lost_cluster_run as [_ [cs [cost [Hrun Hkeys]]]].
    eexists. exists cs, cost. split; [exact Hrun|].
    rewrite <- (length_map fst), Hkeys. simpl. lia.
Qed.

(** The first pass of the run above: both calls of its claims hold at the
    initial state. *)
Lemma centroid_never_sees_empty_subset_witness :
  (forall i,
      In i (first_seen [Some "red"; Some "red"; Some "orange"; Some "orange";
                        Some "yellow"; Some "yellow"]%string) ->
      exists col cols,
        select_members lost_cluster_data
          [Some "red"; Some "red"; Some "orange"; Some "orange";
           Some "yellow"; Some "yellow"]%string i = col :: cols /\
        1 <= length col <= 6) /\
  ((forall (a : float) (n : nat),
       1 <= n <= 6 -> exists q, fdiv a (of_len n) = Ok q) ->
   exists cs,
     @get_centroids float float_arith first_seen_order lost_cluster_data
       (Some [Some "red"; Some "red"; Some "orange"; Some "orange";
              Some "yellow"; Some "yellow"]%string) = Ok cs).
Proof.
  apply (proj1 (proj2 centroid_never_sees_empty_subset) float float_arith
           first_seen_order lost_cluster_data 3%Z lost_cluster_rng
           (initial_state (Some [Some "red"; Some "red"; Some "orange"; Some "orange";
                                 Some "yellow"; Some "yellow"]%string))).
  - exact first_seen_ok.
  - apply reachable_init with (g' := fun i => lost_cluster_rng (6 + i)).
    reflexivity.
  - reflexivity.
Defined.

(** ** Inputs that are never checked *)

Section MonadExt.

Context {A B : Type}.






End MonadExt.

Section Truncation.

Context {F : Type} {PF : PyFloat F} {SO : SetOrder}.

Variables (x0 : list F) (rest : @dataset F).

Let x : @dataset F := x0 :: rest.










End Truncation.



(** A point set whose second column is shorter than the first: the run
    with one cluster raises [IndexError] in [reassign]. *)
Example short_column_run :
  exists (m : list label) (cs : dict),
    fst (guess_clusters ragged_long_first 1 (cycle [0])) = Ok (Some m) /\
    @get_centroids float float_arith first_seen_order ragged_long_first (Some m)
    = Ok cs /\
    reassign ragged_long_first cs = Raise IndexError /\
    fst (@k_means float float_arith first_seen_order 5 ragged_long_first 1
                  (cycle [0]))
    = Some (Raise IndexError).
Proof.
  eexists. eexists. split; [vm_compute; reflexivity|].
  split; [vm_compute; reflexivity|]. split; vm_compute; reflexivity.
Qed.

(** ** The cost of a pass *)

Section CostFacts.

Context {F : Type} {PF : PyFloat F}.

Hypothesis exact : exact_arith PF.

Lemma fsum_fold_right (l : list F) : fsum l = fold_right fadd f0 l.
Proof.
  unfold fsum. apply fold_symmetric.
  - apply (fadd_assoc exact).
  - intros y. apply (fadd_comm exact).
Qed.

Lemma fsum_cons (a : F) (l : list F) : fsum (a :: l) = fadd a (fsum l).
Proof. now rewrite !fsum_fold_right. Qed.

Lemma fold_left_fadd (l : list F) (a : F) : fold_left fadd l a = fadd a (fsum l).
Proof.
  revert a. induction l as [|b l IH]; intros a; simpl.
  - unfold fsum. simpl. now rewrite (fadd_0_r exact).
  - rewrite IH, fsum_cons. symmetry. apply (fadd_assoc exact).
Qed.

Lemma fsum_app (l1 l2 : list F) : fsum (l1 ++ l2) = fadd (fsum l1) (fsum l2).
Proof. unfold fsum at 1. rewrite fold_left_app. apply fold_left_fadd. Qed.

Lemma fsum_perm (l l' : list F) : Permutation l l' -> fsum l = fsum l'.
Proof.
  induction 1 as [|a l l' _ IH|a b l|l l' l'' _ IH1 _ IH2].
  - reflexivity.
  - now rewrite !fsum_cons, IH.
  - rewrite !fsum_cons, !(fadd_assoc exact). now rewrite (fadd_comm exact a b).
  - now rewrite IH1.
Qed.

(** In exact arithmetic, however numbers are added up, the result is their
    sum. *)
Lemma adds_up_fsum (l : list F) (s : F) : adds_up l s -> s = fsum l.
Proof.
  induction 1 as [|a|l1 l2 a b _ IH1 _ IH2|l l' a P _ IH].
  - reflexivity.
  - rewrite fsum_cons. unfold fsum. simpl. symmetry. apply (fadd_0_r exact).
  - now rewrite fsum_app, IH1, IH2.
  - rewrite IH. now apply fsum_perm.
Qed.

(** Adding a minimum distance to the score of its cluster adds it to the
    sum of all the scores. *)
Lemma add_score_total (scores : list (label * F)) (best : F * label) :
  fsum (map snd (add_score scores best)) = fadd (fst best) (fsum (map snd scores)).
Proof.
  destruct best as [m c]. unfold add_score. simpl.
  induction scores as [|[c' v] scores IH]; simpl.
  - rewrite fsum_cons. unfold fsum. simpl. now rewrite !(fadd_0_r exact).
  - destruct (label_eqb c' c); simpl.
    + rewrite !fsum_cons. symmetry. apply (fadd_assoc exact).
    + rewrite !fsum_cons, IH.
      rewrite (fadd_assoc exact), (fadd_comm exact v m).
      symmetry. apply (fadd_assoc exact).
Qed.

Lemma scores_total (bests : list (F * label)) (scores : list (label * F)) :
  fsum (map snd (fold_left add_score bests scores))
  = fadd (fsum (map snd scores)) (fsum (map fst bests)).
Proof.
  revert scores. induction bests as [|best bests IH]; intros scores; simpl.
  - unfold fsum at 3. simpl. now rewrite (fadd_0_r exact).
  - rewrite IH, add_score_total, fsum_cons.
    rewrite (fadd_comm exact (fst best)). symmetry. apply (fadd_assoc exact).
Qed.

(** The sum of the scores is the sum of the minimum distances found. *)
Lemma cost_of_bests (bests : list (F * label)) :
  fsum (map snd (fold_left add_score bests [])) = fsum (map fst bests).
Proof.
  rewrite scores_total. simpl. unfold fsum at 1. simpl.
  rewrite (fadd_comm exact). apply (fadd_0_r exact).
Qed.




Lemma map_snd_combine {A B : Type} (l1 : list A) (l2 : list B) :
  length l1 = length l2 -> map snd (combine l1 l2) = l2.
Proof.
  revert l2. induction l1 as [|a l1 IH]; intros [|b l2] H; simpl in *;
    try discriminate; [reflexivity|].
  f_equal. apply IH. lia.
Qed.




End CostFacts.

(** ** The cost of a pass, whatever the rounding *)

Section MinimumFacts.

Context {F : Type} {PF : PyFloat F}.

Hypothesis order : strict_order PF.

Lemma closer_found (seen : list F) (b d : F) (l c : label) :
  found seen b -> found (seen ++ [d]) (fst (closer (b, l) c d)).
Proof.
  unfold closer, found, minimum_of. simpl. intros H.
  destruct (flt d b) eqn:Hd; simpl.
  - right.
    assert (Hmax : flt d maxsize = true).
    { destruct H as [[-> _] | [Hb _]]; [exact Hd|].
      exact (lt_trans order _ _ _ Hd Hb). }
    split; [exact Hmax|]. split; [apply in_or_app; right; now left|].
    apply Forall_app. split; [|constructor; [apply (lt_irrefl order) | constructor]].
    apply Forall_forall. intros d' Hd'.
    destruct (flt d' d) eqn:E; [exfalso | reflexivity].
    pose proof (lt_trans order _ _ _ E Hd) as Hlt.
    destruct H as [[-> Hall] | [_ [_ Hall]]];
      rewrite Forall_forall in Hall; rewrite (Hall d' Hd') in Hlt; discriminate.
  - destruct H as [[-> Hall] | [Hb [Hin Hall]]].
    + left. split; [reflexivity|]. apply Forall_app. split; [exact Hall|].
      constructor; [exact Hd | constructor].
    + right. split; [exact Hb|]. split; [apply in_or_app; now left|].
      apply Forall_app. split; [exact Hall|]. constructor; [exact Hd | constructor].
Qed.

Lemma scan_found (lds : list (label * F)) (seen : list F) (b : F) (l : label) :
  found seen b -> found (seen ++ map snd lds) (fst (scan lds (b, l))).
Proof.
  revert seen b l. induction lds as [|[c d] lds IH]; intros seen b l H; simpl.
  - now rewrite app_nil_r.
  - pose proof (@closer_found seen b d l c H) as H'.
    destruct (closer (b, l) c d) as [b' l'] eqn:E. simpl in H'.
    specialize (IH _ _ l' H'). rewrite <- app_assoc in IH. exact IH.
Qed.




End MinimumFacts.

Section AddsUpFacts.

Context {F : Type} {PF : PyFloat F}.





End AddsUpFacts.


(** ** The laws of the two arithmetics *)

(** *** The reals *)

Lemma Rltb_true (a b : R) : Rltb a b = true <-> (a < b)%R.
Proof.
  unfold Rltb. destruct (Rlt_dec a b); split; intros H; auto; discriminate.
Qed.

Lemma Rltb_false (a b : R) : Rltb a b = false <-> (b <= a)%R.
Proof.
  unfold Rltb. destruct (Rlt_dec a b); split; intros H; auto; try discriminate; lra.
Qed.

Lemma real_arith_exact : exact_arith real_arith.
Proof.
  constructor; simpl.
  - intros a b. lra.
  - intros a b c. lra.
  - intros a. lra.
  - intros a b c Hab Hcb. apply Rltb_true in Hab. apply Rltb_false in Hcb.
    apply Rltb_true. lra.
  - intros a n. destruct (Req_dec_T _ 0) as [H|H]; [|eauto].
    exfalso. apply (not_0_INR (S n)); [discriminate | exact H].
Qed.

Lemma real_strict_order : strict_order real_arith.
Proof.
  constructor; simpl.
  - exact Rltb_irrefl.
  - intros a b c Hab Hbc. apply Rltb_true in Hab. apply Rltb_true in Hbc.
    apply Rltb_true. lra.
Qed.

Lemma real_distance_arith : distance_arith real_arith real_good.
Proof.
  constructor; unfold real_good; simpl.
  - intros a b. lra.
  - lra.
  - intros a b Ha Hb. lra.
  - intros a _. lra.
  - intros a b H. apply (f_equal (fun r => match r with Ok v => v | Raise _ => 0%R end)) in H.
    subst b. pose proof (Rle_0_sqr a) as Hsq. unfold Rsqr in Hsq. exact Hsq.
  - intros a b _ H. destruct (Rlt_dec a 0); [discriminate|].
    apply (f_equal (fun r => match r with Ok v => v | Raise _ => 0%R end)) in H.
    subst b. apply sqrt_pos.
  - intros a. apply Rltb_false.
    replace (a - a)%R with 0%R by lra. rewrite Rabs_R0. lra.
  - apply Rltb_true. rewrite Rabs_right; lra.
Qed.

(** *** Binary64 *)

Lemma float_add_comm (a b : float) : PrimFloat.add a b = PrimFloat.add b a.
Proof.
  apply Prim2SF_inj. rewrite !add_spec. unfold SF64add, SpecFloat.SFadd.
  destruct (Prim2SF a) as [sa|sa| |sa ma ea], (Prim2SF b) as [sb|sb| |sb mb eb];
    try destruct sa; try destruct sb; try reflexivity;
    now rewrite Z.min_comm, Z.add_comm.
Qed.

(** Rounding keeps the sign it is given. *)
Lemma binary_round_aux_nonneg (m e : Z) (l : SpecFloat.location) :
  sf_nonneg (SpecFloat.binary_round_aux prec emax false m e l) = true.
Proof.
  unfold SpecFloat.binary_round_aux.
  destruct (SpecFloat.shr_fexp prec emax m e l) as [mrs' e'].
  destruct (SpecFloat.shr_fexp prec emax _ e' SpecFloat.loc_Exact) as [mrs'' e''].
  destruct (SpecFloat.shr_m mrs''); simpl; try reflexivity.
  destruct (_ <=? _)%Z; reflexivity.
Qed.

Lemma binary_round_nonneg (m : positive) (e : Z) :
  sf_nonneg (SpecFloat.binary_round prec emax false m e) = true.
Proof.
  unfold SpecFloat.binary_round.
  destruct (SpecFloat.shl_align m e _) as [mz ez]. apply binary_round_aux_nonneg.
Qed.

Lemma SFadd_nonneg (x y : SpecFloat.spec_float) :
  sf_nonneg x = true -> sf_nonneg y = true -> sf_nonneg (SF64add x y) = true.
Proof.
  unfold SF64add, SpecFloat.SFadd.
  destruct x as [sx|sx| |sx mx ex], y as [sy|sy| |sy my ey]; simpl;
    try destruct sx; try destruct sy; simpl; intros; try discriminate;
    try reflexivity.
  apply binary_round_nonneg.
Qed.

Lemma SFadd_zero_l (x : SpecFloat.spec_float) :
  sf_nonneg x = true -> SF64add (SpecFloat.S754_zero false) x = x.
Proof.
  destruct x as [s|s| |s m e]; simpl; try destruct s; simpl; intros;
    try discriminate; reflexivity.
Qed.

Lemma SFmul_self_nonneg (x : SpecFloat.spec_float) : sf_nonneg (SF64mul x x) = true.
Proof.
  unfold SF64mul, SpecFloat.SFmul.
  destruct x as [s|s| |s m e]; simpl; rewrite ?xorb_nilpotent; try reflexivity.
  apply binary_round_aux_nonneg.
Qed.

Lemma SFsqrt_nonneg (x : SpecFloat.spec_float) :
  sf_nonneg x = true -> sf_nonneg (SF64sqrt x) = true.
Proof.
  unfold SF64sqrt, SpecFloat.SFsqrt.
  destruct x as [s|s| |s m e]; simpl; try destruct s; simpl; intros;
    try discriminate; try reflexivity.
  destruct (SpecFloat.SFsqrt_core_binary prec emax (Z.pos m) e) as [[mz ez] lz].
  apply binary_round_aux_nonneg.
Qed.

(** [a - a] is 0.0 or not a number. *)
Lemma SFsub_self (x : SpecFloat.spec_float) :
  SF64sub x x = SpecFloat.S754_nan \/ SF64sub x x = SpecFloat.S754_zero false.
Proof.
  unfold SF64sub, SpecFloat.SFsub.
  destruct x as [s|s| |s m e]; simpl; try destruct s; auto;
    rewrite Z.sub_diag; auto.
Qed.

Lemma float_sub_self (t a : float) :
  PrimFloat.ltb 0 t = true ->
  PrimFloat.ltb t (PrimFloat.abs (PrimFloat.sub a a)) = false.
Proof.
  rewrite !ltb_spec, abs_spec, sub_spec. unfold SpecFloat.SFltb.
  change (Prim2SF 0) with (SpecFloat.S754_zero false).
  destruct (SFsub_self (Prim2SF a)) as [-> | ->]; simpl.
  - destruct (Prim2SF t); reflexivity.
  - destruct (Prim2SF t) as [s|s| |s m e]; simpl; try destruct s; intros;
      try discriminate; reflexivity.
Qed.

Lemma SFltb_trans (x y z : SpecFloat.spec_float) :
  SpecFloat.SFltb x y = true -> SpecFloat.SFltb y z = true ->
  SpecFloat.SFltb x z = true.
Proof.
  unfold SpecFloat.SFltb.
  destruct x as [sx|sx| |sx mx ex], y as [sy|sy| |sy my ey], z as [sz|sz| |sz mz ez];
    simpl; try destruct sx; try destruct sy; try destruct sz; simpl;
    try discriminate; try reflexivity;
    rewrite ?Pos.compare_cont_spec; simpl;
    destruct (Z.compare_spec ex ey), (Z.compare_spec ey ez), (Z.compare_spec ex ez);
    try discriminate; try reflexivity; try lia; subst;
    destruct (Pos.compare_spec mx my), (Pos.compare_spec my mz),
      (Pos.compare_spec mx mz);
    simpl; try discriminate; try reflexivity; try lia.
Qed.

Lemma float_strict_order : strict_order float_arith.
Proof.
  constructor; simpl.
  - exact float_ltb_irrefl.
  - intros a b c. rewrite !ltb_spec. apply SFltb_trans.
Qed.

Lemma float_distance_arith : distance_arith float_arith float_good.
Proof.
  constructor; unfold float_good; simpl.
  - exact float_add_comm.
  - reflexivity.
  - intros a b Ha Hb. rewrite add_spec. now apply SFadd_nonneg.
  - intros a Ha. apply Prim2SF_inj. rewrite add_spec.
    change (Prim2SF 0) with (SpecFloat.S754_zero false). now apply SFadd_zero_l.
  - intros a b H. destruct (_ && _); [discriminate|].
    apply (f_equal (fun r => match r with Ok v => v | Raise _ => 0%float end)) in H.
    subst b. rewrite mul_spec. apply SFmul_self_nonneg.
  - intros a b Ha H. destruct (PrimFloat.ltb a 0); [discriminate|].
    apply (f_equal (fun r => match r with Ok v => v | Raise _ => 0%float end)) in H.
    subst b. rewrite sqrt_spec. now apply SFsqrt_nonneg.
  - intros a. apply float_sub_self. reflexivity.
  - reflexivity.
Qed.





(** ** One cluster *)

Section SingleCluster.

Context {F : Type} {PF : PyFloat F} {SO : SetOrder}.

Variable good : F -> Prop.

Hypothesis arith : distance_arith PF good.
Hypothesis so_ok : set_iter_ok SO.

Lemma guess_labels_one (n : nat) (g : Rng) :
  guess_labels n 1 g = (Ok (repeat first_label n), fun i => g (n + i)).
Proof.
  revert g. induction n as [|n IH]; intros g; simpl; [reflexivity|].
  unfold bindM at 1, random_choice_range.
  change (1 <=? 0)%Z with false. change (Z.to_nat 1) with 1. rewrite Nat.mod_1_r.
  cbv iota beta. unfold bindM at 1, pure_call at 1.
  change (index co 0) with (Ok "red"%string). cbv iota beta.
  unfold bindM, retM. rewrite IH. reflexivity.
Qed.

Lemma guess_clusters_one (x0 : list F) (rest : dataset) (g : Rng) :
  1 <= length x0 ->
  guess_clusters (x0 :: rest) 1 g
  = (Ok (Some (repeat first_label (length x0))), fun i => g (length x0 + i)).
Proof.
  intros Hn. unfold guess_clusters, bindM at 1, pure_call at 1.
  rewrite index_cons_0. destruct (length x0) as [|n] eqn:En; [lia|].
  unfold bindM, retM. now rewrite guess_labels_one.
Qed.

(** A set with one element is traversed in one step. *)
Lemma set_iter_single (l : label) (n : nat) : set_iter (repeat l (S n)) = [l].
Proof.
  destruct (so_ok (repeat l (S n))) as [Hnd Hin].
  assert (Hall : forall a, In a (set_iter (repeat l (S n))) <-> a = l).
  { intros a. rewrite Hin. split; [apply repeat_spec | intros ->; now left]. }
  destruct (set_iter (repeat l (S n))) as [|a s].
  - exfalso. now apply (Hall l).
  - assert (a = l) by (apply Hall; now left). subst a. f_equal.
    destruct s as [|b s]; [reflexivity|]. exfalso.
    assert (b = l) by (apply Hall; right; now left). subst b.
    inversion Hnd as [|? ? Hnotin _]. apply Hnotin. now left.
Qed.

Lemma select_all (col : list F) (l : label) :
  map fst (filter (fun il => label_eqb (snd il) l)
                  (combine col (repeat l (length col)))) = col.
Proof.
  induction col as [|v col IH]; simpl; [reflexivity|].
  rewrite label_eqb_refl. simpl. now rewrite IH.
Qed.

Lemma select_members_all (x : dataset) (l : label) (n : nat) :
  Forall (fun col : list F => length col = n) x ->
  select_members x (repeat l n) l = x.
Proof.
  intros Hx. unfold select_members. rewrite <- (map_id x) at 2.
  apply map_ext_in. intros col Hcol. rewrite Forall_forall in Hx.
  rewrite <- (Hx col Hcol). apply select_all.
Qed.

Lemma get_centroids_single (x : dataset) (n : nat) (cen : point) :
  Forall (fun col : list F => length col = S n) x ->
  centroid x = Ok cen ->
  get_centroids x (Some (repeat first_label (S n))) = Ok [(first_label, cen)].
Proof.
  intros Hx Hcen. unfold get_centroids. rewrite set_iter_single. cbn [mapM].
  now rewrite (select_members_all first_label Hx), Hcen.
Qed.

Lemma nearest_single (x : dataset) (l : label) (cen : point) (idx : nat)
      (p : point) (d : F) :
  point_at x idx = Ok p -> distance cen p = Ok d -> flt d maxsize = true ->
  nearest x [(l, cen)] idx = Ok (d, l).
Proof.
  intros Hp Hd Hlt. unfold nearest. simpl. unfold inner_round. rewrite Hp. simpl.
  rewrite Hd. simpl. unfold closer. simpl. now rewrite Hlt.
Qed.

Lemma nearest_single_all (x : dataset) (l : label) (cen : point) (idxs : list nat)
      (ds : list F) :
  mapM (fun idx => p <- point_at x idx ;; distance cen p) idxs = Ok ds ->
  Forall (fun d => flt d maxsize = true) ds ->
  mapM (nearest x [(l, cen)]) idxs = Ok (map (fun d => (d, l)) ds).
Proof.
  revert ds. induction idxs as [|idx idxs IH]; intros ds H Hall; simpl in *.
  - now inversion H.
  - destruct (point_at x idx) as [p|e] eqn:Hp; simpl in H; [|discriminate].
    destruct (distance cen p) as [d|e] eqn:Hd; simpl in H; [|discriminate].
    destruct (mapM _ idxs) as [ds'|e]; simpl in H; [|discriminate].
    inversion H; subst. inversion Hall; subst.
    rewrite (@nearest_single x l cen idx p d Hp Hd) by assumption. simpl.
    now rewrite (IH ds' eq_refl).
Qed.

Lemma map_const_repeat {A B : Type} (b : B) (l : list A) :
  map (fun _ => b) l = repeat b (length l).
Proof. induction l as [|a l IH]; simpl; [reflexivity | now rewrite IH]. Qed.

Lemma fold_good (l : list F) (a : F) :
  good a -> Forall good l -> good (fold_left fadd l a).
Proof.
  intros Ha Hl. revert a Ha. induction Hl as [|b l Hb _ IH]; intros a Ha; simpl;
    [exact Ha|].
  apply IH. now apply (da_add arith).
Qed.

Lemma fsum_good (l : list F) : Forall good l -> good (fsum l).
Proof. apply fold_good. exact (da_zero arith). Qed.

(** A distance is the square root of a sum of squares. *)
Lemma distance_good (p1 p2 : point) (d : F) : distance p1 p2 = Ok d -> good d.
Proof.
  unfold distance. intros H. apply bind_Ok_inv in H. destruct H as [sq [Hsq Hd]].
  assert (Hall : Forall good sq).
  { clear Hd. apply mapM_Forall2 in Hsq.
    induction Hsq as [|ij s l sq Hs _ IH]; constructor; [|exact IH].
    destruct (index (fst ij) 0) as [a|e]; simpl in Hs; [|discriminate].
    destruct (index (snd ij) 0) as [b|e]; simpl in Hs; [|discriminate].
    exact (da_pow2 arith _ Hs). }
  apply (da_sqrt arith) with (a := fsum sq); [now apply fsum_good | exact Hd].
Qed.

Lemma distances_to_good (cen : point) (x : dataset) (ds : list F) :
  distances_to cen x = Ok ds -> Forall good ds.
Proof.
  unfold distances_to. intros H. apply bind_Ok_inv in H. destruct H as [x0 [_ H]].
  apply mapM_Forall2 in H.
  induction H as [|idx d idxs ds Hd _ IH]; constructor; [|exact IH].
  apply bind_Ok_inv in Hd. destruct Hd as [p [_ Hd]]. exact (distance_good _ _ Hd).
Qed.

(** The score of the one label is the sum of the distances, in the order
    of the points. *)
Lemma scores_single (l : label) (ds : list F) (a : F) :
  fold_left add_score (map (fun d => (d, l)) ds) [(l, a)]
  = [(l, fold_left fadd ds a)].
Proof.
  revert a. induction ds as [|d ds IH]; intros a; simpl; [reflexivity|].
  unfold add_score at 2. simpl. rewrite label_eqb_refl.
  now rewrite (da_comm arith d a), IH.
Qed.

Lemma cost_single (l : label) (ds : list F) :
  Forall good ds -> 1 <= length ds ->
  fsum (map snd (fold_left add_score (map (fun d => (d, l)) ds) [])) = fsum ds.
Proof.
  intros Hgood Hn. destruct ds as [|d ds]; [simpl in Hn; lia|].
  simpl. unfold add_score at 2. simpl.
  rewrite (da_comm arith d f0), scores_single. simpl.
  change (fold_left fadd ds (fadd f0 d)) with (fsum (d :: ds)).
  unfold fsum at 1. simpl. apply (da_zero_l arith). now apply fsum_good.
Qed.

(** With one centroid nearer than [sys.maxsize] to every point, [reassign]
    labels every point with it and returns the mean distance. *)
Lemma reassign_single (x : dataset) (l : label) (cen : point) (ds : list F) :
  distances_to cen x = Ok ds ->
  Forall (fun d => flt d maxsize = true) ds ->
  1 <= length ds ->
  (forall a : F, exists q, fdiv a (of_len (length ds)) = Ok q) ->
  exists cost,
    reassign x [(l, cen)] = Ok (repeat l (length ds), cost) /\
    mean_distance_to cen x = Ok cost.
Proof.
  intros Hds Hall Hn Hdiv. unfold mean_distance_to. rewrite Hds. simpl.
  pose proof (distances_to_good _ _ Hds) as Hgood.
  unfold distances_to in Hds. rewrite reassign_eq.
  destruct (index x 0) as [x0|e]; simpl in *; [|discriminate].
  pose proof (mapM_length _ _ Hds) as Hlen. rewrite length_seq in Hlen.
  rewrite (@nearest_single_all x l cen _ ds Hds Hall). simpl.
  rewrite (cost_single l Hgood Hn), map_map. simpl. rewrite <- Hlen.
  destruct (Hdiv (fsum ds)) as [q Hq]. rewrite Hq. simpl.
  exists q. split; [|reflexivity]. now rewrite map_const_repeat.
Qed.

(** With k = 1 the run makes one or two passes and returns the mean
    distance to the centroid of all the points. *)
Lemma k_means_one (x0 : list F) (rest : dataset) (g : Rng) (fuel : nat)
      (cen : point) (ds : list F) :
  1 <= length x0 ->
  Forall (fun col : list F => length col = length x0) rest ->
  (forall a : F, exists q, fdiv a (of_len (length x0)) = Ok q) ->
  centroid (x0 :: rest) = Ok cen ->
  distances_to cen (x0 :: rest) = Ok ds ->
  Forall (fun d => flt d maxsize = true) ds ->
  2 <= fuel ->
  exists cost it,
    mean_distance_to cen (x0 :: rest) = Ok cost /\
    fst (k_means_count fuel (x0 :: rest) 1 g)
    = Some (Ok ((Some (repeat first_label (length x0)), [(first_label, cen)], cost), it)) /\
    1 <= it <= 2.
Proof.
  intros Hn Hrest Hdiv Hcen Hds Hall Hfuel.
  assert (Hlen : length ds = length x0).
  { unfold distances_to in Hds. rewrite index_cons_0 in Hds. simpl in Hds.
    rewrite (mapM_length _ _ Hds). apply length_seq. }
  destruct (@reassign_single (x0 :: rest) first_label cen ds Hds Hall) as [cost [Hr Hmean]];
    [lia | now rewrite Hlen |].
  rewrite Hlen in Hr.
  assert (Hx : Forall (fun col : list F => length col = length x0) (x0 :: rest))
    by (constructor; auto).
  destruct (length x0) as [|n] eqn:En; [lia|].
  pose proof (get_centroids_single Hx Hcen) as Hgc.
  unfold k_means_count. rewrite guess_clusters_one by lia. rewrite En. simpl fst.
  set (m := Some (repeat first_label (S n))).
  set (st1 := {| membership := m; c := Some [(first_label, cen)]; score := cost;
                 last_score := f0; iterations := 1 |}).
  set (st2 := {| membership := m; c := Some [(first_label, cen)]; score := cost;
                 last_score := cost; iterations := 2 |}).
  assert (Hb0 : loop_body (x0 :: rest) (initial_state m) = Ok st1).
  { unfold loop_body. simpl membership. unfold m. rewrite Hgc. simpl. now rewrite Hr. }
  assert (Hb1 : loop_body (x0 :: rest) st1 = Ok st2).
  { unfold loop_body. simpl membership. unfold m. rewrite Hgc. simpl. now rewrite Hr. }
  assert (Hc0 : continues (initial_state m) = true) by exact (da_first arith).
  assert (Hc2 : continues st2 = false) by exact (da_self arith cost).
  destruct (continues st1) eqn:Hc1.
  - exists cost, 2. split; [exact Hmean|]. split; [|lia].
    rewrite (@k_loop_returns _ _ _ (x0 :: rest) 2 (initial_state m) st2); auto.
    apply passes_S with (st1 := st1); auto.
    apply passes_S with (st1 := st2); auto. constructor.
  - exists cost, 1. split; [exact Hmean|]. split; [|lia].
    rewrite (@k_loop_returns _ _ _ (x0 :: rest) 1 (initial_state m) st1); auto; [|lia].
    apply passes_S with (st1 := st1); auto. constructor.
Qed.

End SingleCluster.

(** ** One cluster, in real arithmetic *)

Lemma mapM_total {A B : Type} (f : A -> result B) (l : list A) :
  (forall a, In a l -> exists b, f a = Ok b) -> exists bs, mapM f l = Ok bs.
Proof.
  induction l as [|a l IH]; intros H; simpl; [eauto|].
  destruct (H a (or_introl eq_refl)) as [b ->]. simpl.
  destruct IH as [bs ->]; [intros a' Ha'; apply H; now right|]. simpl. eauto.
Qed.

Section Shapes.

Context {F : Type} {PF : PyFloat F}.

Lemma centroid_singletons (x : dataset) (cen : point) :
  centroid x = Ok cen -> singletons cen.
Proof.
  unfold centroid. intros H. apply mapM_Forall2 in H.
  induction H as [|col c' xs cens Hc _ IH]; constructor; [|exact IH].
  destruct (index _ 0); simpl in Hc; [|discriminate].
  destruct (fdiv _ _) as [q|e]; simpl in Hc; [|discriminate].
  inversion Hc. eauto.
Qed.

Lemma point_at_total (x : dataset) (n idx : nat) :
  Forall (fun col : list F => length col = n) x -> idx < n ->
  exists p, point_at x idx = Ok p /\ singletons p.
Proof.
  intros Hx Hidx. unfold point_at.
  induction Hx as [|col x Hcol _ [p [IH Hp]]]; simpl.
  - exists []. split; [reflexivity | constructor].
  - destruct (@index_Ok_lt _ col idx) as [v [-> _]]; [lia|]. simpl.
    rewrite IH. simpl. exists ([v] :: p). split; [reflexivity|].
    constructor; eauto.
Qed.

End Shapes.

Lemma real_fold_nonneg (l : list R) (a : R) :
  (0 <= a)%R -> Forall (fun s => (0 <= s)%R) l -> (0 <= fold_left Rplus l a)%R.
Proof.
  intros Ha Hl. revert a Ha. induction Hl as [|s l Hs _ IH]; intros a Ha; simpl;
    [exact Ha|].
  apply IH. lra.
Qed.

Lemma real_squares_total (p1 p2 : @point R) :
  singletons p1 -> singletons p2 ->
  exists sq,
    mapM (fun ij => a <- index (fst ij) 0 ;; b <- index (snd ij) 0 ;;
                    fpow2 (fsub a b)) (combine p1 p2) = Ok sq /\
    Forall (fun s => (0 <= s)%R) sq.
Proof.
  intros H1. revert p2. induction H1 as [|c1 p1 [a ->] _ IH]; intros p2 H2; simpl.
  - exists []. split; [reflexivity | constructor].
  - destruct H2 as [|c2 p2 [b ->] H2]; simpl.
    + exists []. split; [reflexivity | constructor].
    + destruct (IH p2 H2) as [sq [Hsq1 Hsq]]. simpl in Hsq1. rewrite Hsq1. simpl.
      eexists. split; [reflexivity|]. constructor; [|exact Hsq].
      pose proof (Rle_0_sqr (a - b)) as H. unfold Rsqr in H. exact H.
Qed.

(** In real arithmetic the distance of two well-formed points is defined. *)
Lemma real_distance_total (p1 p2 : @point R) :
  singletons p1 -> singletons p2 -> exists d, distance p1 p2 = Ok d.
Proof.
  intros H1 H2. unfold distance.
  destruct (real_squares_total H1 H2) as [sq [-> Hsq]]. simpl.
  pose proof (@real_fold_nonneg sq 0%R (Rle_refl 0) Hsq) as Hsum.
  unfold fsum. simpl.
  destruct (Rlt_dec (fold_left Rplus sq 0%R) 0%R) as [H|H]; [exfalso; lra | eauto].
Qed.

Lemma real_distances_to_total (x0 : list R) (rest : dataset) (cen : point) :
  Forall (fun col : list R => length col = length x0) rest ->
  centroid (x0 :: rest) = Ok cen ->
  exists ds, distances_to cen (x0 :: rest) = Ok ds.
Proof.
  intros Hrest Hcen. unfold distances_to. rewrite index_cons_0. simpl.
  apply mapM_total. intros idx Hidx. apply in_seq in Hidx.
  destruct (@point_at_total R (x0 :: rest) (length x0) idx) as [p [-> Hp]];
    [constructor; auto | lia |].
  simpl. apply real_distance_total; [|exact Hp].
  exact (centroid_singletons _ Hcen).
Qed.

(** In real arithmetic a run with k = 1 on well-formed points raises
    nothing. *)
Lemma k_means_one_real (SO : SetOrder) (x0 : list R) (rest : @dataset R) (g : Rng)
      (fuel : nat) :
  set_iter_ok SO ->
  1 <= length x0 ->
  Forall (fun col : list R => length col = length x0) rest ->
  2 <= fuel ->
  exists (cen : point) (ds : list R) (cost : R),
    centroid (x0 :: rest) = Ok cen /\
    distances_to cen (x0 :: rest) = Ok ds /\
    mean_distance_to cen (x0 :: rest) = Ok cost /\
    (Forall (fun d => (d < 9223372036854775807)%R) ds ->
     exists it,
       fst (k_means_count fuel (x0 :: rest) 1 g)
       = Some (Ok ((Some (repeat first_label (length x0)),
                    [(first_label, cen)], cost), it)) /\
       1 <= it <= 2).
Proof.
  intros Hso Hn Hrest Hfuel.
  assert (Hdiv : forall a : R, exists q, fdiv a (of_len (length x0)) = Ok q).
  { intros a. destruct (length x0) as [|n]; [lia|]. apply (fdiv_len real_arith_exact). }
  destruct (@centroid_total R real_arith x0 rest Hdiv) as [cen Hcen].
  destruct (@real_distances_to_total x0 rest cen Hrest Hcen) as [ds Hds].
  assert (Hlen : length ds = length x0).
  { unfold distances_to in Hds. rewrite index_cons_0 in Hds. simpl in Hds.
    rewrite (mapM_length _ _ Hds). apply length_seq. }
  assert (Hmean : exists cost, mean_distance_to cen (x0 :: rest) = Ok cost).
  { unfold mean_distance_to. rewrite Hds. simpl. rewrite Hlen. apply Hdiv. }
  destruct Hmean as [cost Hmean].
  exists cen, ds, cost. repeat split; auto.
  intros Hall.
  assert (Hall' : Forall (fun d : R => flt d maxsize = true) ds).
  { eapply Forall_impl; [|exact Hall]. intros d Hd. now apply Rltb_true. }
  destruct (@k_means_one R real_arith SO real_good real_distance_arith Hso
              x0 rest g fuel cen ds)
    as [cost' [it [Hmean' [Hrun Hit]]]]; auto.
  rewrite Hmean in Hmean'.
  apply (f_equal (fun r => match r with Ok v => v | Raise _ => 0%R end)) in Hmean'.
  subst cost'. exists it. split; [exact Hrun | exact Hit].
Qed.

(** C8, as the code has it.  For a point set of n >= 1 points that all have
    every coordinate, whatever the state of the random generator and the
    traversal order of sets:
    - in an arithmetic with the laws of [distance_arith], as binary64 is,
      where sums divide by n and the centroid of all the points and their
      distances to it are computed without exception, each distance being
      below [sys.maxsize]: [k_means] with k = 1 returns within two passes,
      with every point labelled "red", that one centroid, and the mean of
      the distances as its cost;
    - in real arithmetic the centroid, the distances and their mean are
      always defined, and the same holds when each distance is below
      [sys.maxsize]. *)
Theorem k_means_single_cluster :
  (forall (F : Type) (PF : PyFloat F) (SO : SetOrder) (good : F -> Prop)
          (x0 : list F) (rest : dataset) (g : Rng) (fuel : nat)
          (cen : point) (ds : list F),
      distance_arith PF good ->
      set_iter_ok SO ->
      1 <= length x0 ->
      Forall (fun col : list F => length col = length x0) rest ->
      (forall a : F, exists q, fdiv a (of_len (length x0)) = Ok q) ->
      centroid (x0 :: rest) = Ok cen ->
      distances_to cen (x0 :: rest) = Ok ds ->
      Forall (fun d => flt d maxsize = true) ds ->
      2 <= fuel ->
      exists cost it,
        mean_distance_to cen (x0 :: rest) = Ok cost /\
        fst (k_means_count fuel (x0 :: rest) 1 g)
        = Some (Ok ((Some (repeat first_label (length x0)),
                     [(first_label, cen)], cost), it)) /\
        1 <= it <= 2) /\
  (forall (SO : SetOrder) (x0 : list R) (rest : @dataset R) (g : Rng) (fuel : nat),
      set_iter_ok SO ->
      1 <= length x0 ->
      Forall (fun col : list R => length col = length x0) rest ->
      2 <= fuel ->
      exists (cen : point) (ds : list R) (cost : R),
        centroid (x0 :: rest) = Ok cen /\
        distances_to cen (x0 :: rest) = Ok ds /\
        mean_distance_to cen (x0 :: rest) = Ok cost /\
        (Forall (fun d => (d < 9223372036854775807)%R) ds ->
         exists it,
           fst (k_means_count fuel (x0 :: rest) 1 g)
           = Some (Ok ((Some (repeat first_label (length x0)),
                        [(first_label, cen)], cost), it)) /\
           1 <= it <= 2)).
Proof.
  split.
  - intros F PF SO good x0 rest g fuel cen ds Harith Hso.
    now apply k_means_one with (good := good).
  - exact k_means_one_real.
Qed.

(** Two points in the plane, in binary64, and two on a line, over the
    reals. *)
Lemma k_means_single_cluster_witness :
  (exists cost it,
      @mean_distance_to float _ [[2]; [1]]%float [[0; 4]; [1; 1]]%float = Ok cost /\
      fst (@k_means_count float float_arith first_seen_order 2
             [[0; 4]; [1; 1]]%float 1 (cycle [0]))
      = Some (Ok ((Some (repeat first_label 2), [(first_label, [[2]; [1]]%float)],
                   cost), it)) /\
      1 <= it <= 2) /\
  (exists (cen : point) (ds : list R) (cost : R),
      @centroid R _ [[0; 4]]%R = Ok cen /\
      distances_to cen [[0; 4]]%R = Ok ds /\
      mean_distance_to cen [[0; 4]]%R = Ok cost /\
      (Forall (fun d => (d < 9223372036854775807)%R) ds ->
       exists it,
         fst (@k_means_count R real_arith first_seen_order 2 [[0; 4]]%R 1 (cycle [0]))
         = Some (Ok ((Some (repeat first_label 2), [(first_label, cen)], cost), it)) /\
         1 <= it <= 2)).
Proof.
  split.
  - apply (proj1 k_means_single_cluster float float_arith first_seen_order float_good
             [0; 4]%float [[1; 1]]%float (cycle [0]) 2 [[2]; [1]]%float [2; 2]%float).
    + exact float_distance_arith.
    + exact first_seen_ok.
    + simpl. lia.
    + repeat constructor.
    + intros a. eexists. reflexivity.
    + vm_compute. reflexivity.
    + vm_compute. reflexivity.
    + repeat constructor.
    + lia.
  - apply (proj2 k_means_single_cluster first_seen_order [0; 4]%R [] (cycle [0]) 2).
    + exact first_seen_ok.
    + simpl. lia.
    + constructor.
    + lia.
Defined.

(** C8, as stated, fails: two points 4e19 apart are each 2e19 from their
    centroid, beyond [sys.maxsize]; the run with k = 1 returns the cost
    [sys.maxsize], which is not their mean distance to the centroid. *)
Lemma k_means_single_cluster_counterexample :
  ~ (forall (data : @dataset float) (g : Rng) (fuel : nat) (r : run_result) (it : nat),
        1 <= length (hd [] data) ->
        rectangular data = true ->
        fst (@k_means_count float float_arith first_seen_order fuel data 1 g)
        = Some (Ok (r, it)) ->
        exists cen, centroid data = Ok cen /\ mean_distance_to cen data = Ok (snd r)).
Proof.
  intros H.
  destruct (H [[0; 4e19]]%float (cycle [0]) 5
              (Some [None; None], [(None, [[2e19]]%float)], 0x1p63%float) 2)
    as [cen [Hcen Hmean]].
  - simpl. lia.
  - reflexivity.
  - vm_compute. reflexivity.
  - assert (Hc : @centroid float _ [[0; 4e19]]%float = Ok [[2e19]]%float)
      by (vm_compute; reflexivity).
    rewrite Hc in Hcen.
    assert (Hcen' : cen = [[2e19]]%float).
    { apply (f_equal (fun r => match r with Ok v => v | Raise _ => [] end)) in Hcen.
      simpl in Hcen. now symmetry. }
    subst cen.
    assert (Hm : @mean_distance_to float _ [[2e19]]%float [[0; 4e19]]%float
                 = Ok 2e19%float) by (vm_compute; reflexivity).
    rewrite Hm in Hmean. simpl in Hmean.
    apply (f_equal (fun r => match r with
                             | Ok v => PrimFloat.ltb v 1e19%float
                             | Raise _ => false
                             end)) in Hmean.
    vm_compute in Hmean. discriminate.
Qed.

(** * The rest of the notebook *)

(** ** The synthetic data of [make_data] *)

Section MakeData.

Context {F : Type} {PF : PyFloat F} {SG : Sampler F}.

Lemma gauss_values_drawn (n mu : nat) (sigma : F) (g : Rng) :
  exists vs g',
    gauss_values n mu sigma g = (Ok vs, g') /\
    length vs = n /\ Forall (drawn mu sigma) vs.
Proof.
  revert g. induction n as [|n IH]; intros g; simpl.
  - exists [], g. repeat split. constructor.
  - destruct (random_gauss mu sigma g) as [v g1] eqn:E.
    destruct (IH g1) as [vs [g' [Hvs [Hlen Hall]]]].
    exists (v :: vs), g'. unfold bindM, retM. rewrite Hvs.
    split; [reflexivity|]. split; [simpl; now rewrite Hlen|].
    constructor; [|exact Hall]. exists g. now rewrite E.
Qed.

Lemma extend_column_app (done todo : dataset) (col vs : list F) :
  extend_column (done ++ col :: todo) (length done) vs = done ++ (col ++ vs) :: todo.
Proof. induction done as [|c done IH]; simpl; [reflexivity | now rewrite IH]. Qed.

Lemma cluster_blocks_extend (n : nat) (sigma : F) (k : nat) (col vs : list F) :
  cluster_blocks n sigma k col -> length vs = n -> Forall (drawn (k * 3) sigma) vs ->
  cluster_blocks n sigma (S k) (col ++ vs).
Proof.
  intros [bs [-> [Hlen Hbs]]] Hvs Hall. exists (bs ++ [vs]).
  split; [now rewrite concat_app; simpl; rewrite app_nil_r|].
  split; [rewrite length_app; simpl; lia|].
  intros i b Hi. destruct (Nat.lt_ge_cases i (length bs)) as [Hlt|Hge].
  - rewrite nth_error_app1 in Hi by exact Hlt. now apply Hbs.
  - rewrite nth_error_app2 in Hi by exact Hge.
    destruct (i - length bs) as [|r] eqn:Er; simpl in Hi.
    + inversion Hi; subst b. replace i with (length bs) by lia.
      rewrite Hlen. auto.
    + destruct r; discriminate.
Qed.

(** The loop over the dimensions, for cluster [i]: the columns before [d]
    hold the block of cluster [i], the others do not yet. *)
Lemma dimensions_loop (n i : nat) (sigma : F) (todo done : dataset) (g : Rng) :
  Forall (cluster_blocks n sigma (S i)) done ->
  Forall (cluster_blocks n sigma i) todo ->
  exists x' g',
    forM (fun x d =>
            bindM (pure_call (index x d)) (fun _ =>
            bindM (gauss_values n (i * 3) sigma) (fun vs =>
            retM (extend_column x d vs))))
         (seq (length done) (length todo)) (done ++ todo) g = (Ok x', g') /\
    length x' = length done + length todo /\
    Forall (cluster_blocks n sigma (S i)) x'.
Proof.
  revert done g. induction todo as [|col todo IH]; intros done g Hdone Htodo; simpl.
  - exists done, g. rewrite app_nil_r. repeat split; [lia | exact Hdone].
  - inversion Htodo as [|? ? Hcol Htodo']; subst.
    unfold bindM at 1. unfold bindM at 1, pure_call, index.
    rewrite nth_error_app2 by lia. rewrite Nat.sub_diag. simpl.
    destruct (gauss_values_drawn n (i * 3) sigma g) as [vs [g1 [Hvs [Hlen Hall]]]].
    unfold bindM at 1. rewrite Hvs. unfold retM at 1.
    rewrite extend_column_app.
    destruct (IH (done ++ [col ++ vs]) g1) as [x' [g' [Hrun [Hlen' Hx']]]].
    + apply Forall_app. split; [exact Hdone|].
      constructor; [|constructor]. now apply cluster_blocks_extend.
    + exact Htodo'.
    + rewrite length_app in Hrun, Hlen'. simpl in Hrun, Hlen'.
      rewrite Nat.add_1_r in Hrun. rewrite <- app_assoc in Hrun. simpl in Hrun.
      exists x', g'. split; [exact Hrun|]. split; [lia | exact Hx'].
Qed.

(** The loop over the clusters. *)
Lemma clusters_loop (n dim : nat) (sigma : F) (cnt i0 : nat) (x : dataset) (g : Rng) :
  length x = dim ->
  Forall (cluster_blocks n sigma i0) x ->
  exists x' g',
    forM (fun x i =>
            forM (fun x d =>
                    bindM (pure_call (index x d)) (fun _ =>
                    bindM (gauss_values n (i * 3) sigma) (fun vs =>
                    retM (extend_column x d vs))))
                 (seq 0 dim) x)
         (seq i0 cnt) x g = (Ok x', g') /\
    length x' = dim /\
    Forall (cluster_blocks n sigma (i0 + cnt)) x'.
Proof.
  revert i0 x g. induction cnt as [|cnt IH]; intros i0 x g Hdim Hx; simpl.
  - exists x, g. rewrite Nat.add_0_r. repeat split; assumption.
  - destruct (@dimensions_loop n i0 sigma x [] g) as [x1 [g1 [Hrun [Hlen Hx1]]]];
      [constructor | exact Hx |].
    simpl in Hrun, Hlen. rewrite Hdim in Hrun, Hlen.
    unfold bindM at 1. rewrite Hrun.
    destruct (IH (S i0) x1 g1 Hlen Hx1) as [x' [g' [Hrun' [Hlen' Hx']]]].
    exists x', g'. split; [exact Hrun'|]. split; [exact Hlen'|].
    now rewrite <- Nat.add_succ_comm.
Qed.

Lemma make_data_blocks (n_points n_clusters dim : Z) (sigma : F) (g : Rng) :
  exists x g',
    make_data n_points n_clusters dim sigma g = (Ok x, g') /\
    length x = Z.to_nat dim /\
    Forall (cluster_blocks (Z.to_nat n_points) sigma (Z.to_nat n_clusters)) x.
Proof.
  unfold make_data. apply clusters_loop.
  - apply repeat_length.
  - apply Forall_forall. intros col Hcol. apply repeat_spec in Hcol. subst col.
    exists []. split; [reflexivity|]. split; [reflexivity|].
    intros i b Hi. destruct i; discriminate.
Qed.

Lemma concat_blocks_length (n : nat) (bs : list (list F)) :
  (forall i b, nth_error bs i = Some b -> length b = n) ->
  length (concat bs) = length bs * n.
Proof.
  induction bs as [|b bs IH]; intros H; simpl; [reflexivity|].
  rewrite length_app, (H 0 b eq_refl), IH; [reflexivity|].
  intros i b' Hi. exact (H (S i) b' Hi).
Qed.

Lemma concat_blocks_nth (n : nat) (bs : list (list F)) (i j : nat) (b : list F) :
  (forall i b, nth_error bs i = Some b -> length b = n) ->
  nth_error bs i = Some b -> j < n ->
  nth_error (concat bs) (i * n + j) = nth_error b j.
Proof.
  revert i. induction bs as [|b0 bs IH]; intros i H Hi Hj; [destruct i; discriminate|].
  pose proof (H 0 b0 eq_refl) as H0. simpl.
  destruct i as [|i]; simpl in *.
  - inversion Hi; subst. apply nth_error_app1. lia.
  - rewrite nth_error_app2 by lia.
    replace (n + i * n + j - length b0) with (i * n + j) by lia.
    apply IH; [|exact Hi | exact Hj].
    intros i' b' Hi'. exact (H (S i') b' Hi').
Qed.

End MakeData.

(** [make_data] raises nothing, whatever its arguments, and returns [dim]
    columns that each hold [n_clusters * n_points] numbers: a data set whose
    points all have every coordinate. *)
Theorem make_data_shape :
  forall (F : Type) (PF : PyFloat F) (SG : Sampler F)
         (n_points n_clusters dim : Z) (sigma : F) (g : Rng),
  exists (x : dataset) (g' : Rng),
    make_data n_points n_clusters dim sigma g = (Ok x, g') /\
    length x = Z.to_nat dim /\
    Forall (fun col => length col = Z.to_nat n_clusters * Z.to_nat n_points) x /\
    rectangular x = true.
Proof.
  intros F PF SG n_points n_clusters dim sigma g.
  destruct (make_data_blocks n_points n_clusters dim sigma g) as [x [g' [Hrun [Hlen Hx]]]].
  exists x, g'. split; [exact Hrun|]. split; [exact Hlen|].
  assert (Hcols : Forall (fun col => length col = Z.to_nat n_clusters * Z.to_nat n_points) x).
  { eapply Forall_impl; [|exact Hx]. intros col [bs [-> [Hk Hbs]]].
    rewrite <- Hk. apply concat_blocks_length.
    intros i b Hi. exact (proj1 (Hbs i b Hi)). }
  split; [exact Hcols|].
  destruct x as [|x0 rest]; [reflexivity|]. simpl.
  inversion Hcols as [|? ? H0 Hrest]; subst.
  apply forallb_forall. intros col Hcol. rewrite Forall_forall in Hrest.
  apply Nat.eqb_eq. rewrite H0. now apply Hrest.
Qed.

(** In every column of the data [make_data] returns, the points of cluster
    [i] are the [n_points] numbers from position [i * n_points] on, and each
    was drawn by [random.gauss] with the mean [3 * i]: the clusters lie one
    after the other, as the notebook's plots of the slices [0:100] and
    [100:200] take them to. *)
Theorem make_data_cluster_slices :
  forall (F : Type) (PF : PyFloat F) (SG : Sampler F)
         (n_points n_clusters dim : Z) (sigma : F) (g g' : Rng) (x : dataset)
         (col : list F) (i j : nat),
    make_data n_points n_clusters dim sigma g = (Ok x, g') ->
    In col x ->
    i < Z.to_nat n_clusters ->
    j < Z.to_nat n_points ->
    exists v, nth_error col (i * Z.to_nat n_points + j) = Some v /\
              drawn (i * 3) sigma v.
Proof.
  intros F PF SG n_points n_clusters dim sigma g g' x col i j Hrun Hcol Hi Hj.
  destruct (make_data_blocks n_points n_clusters dim sigma g) as [x1 [g1 [Hrun1 [_ Hx]]]].
  rewrite Hrun in Hrun1. inversion Hrun1; subst x1 g1.
  rewrite Forall_forall in Hx. destruct (Hx col Hcol) as [bs [-> [Hk Hbs]]].
  destruct (nth_error bs i) as [b|] eqn:Eb;
    [|apply nth_error_None in Eb; lia].
  destruct (Hbs i b Eb) as [Hlen Hall].
  rewrite (@concat_blocks_nth _ (Z.to_nat n_points) bs i j b); auto.
  - destruct (nth_error b j) as [v|] eqn:Ev; [|apply nth_error_None in Ev; lia].
    exists v. split; [reflexivity|]. rewrite Forall_forall in Hall.
    apply Hall. exact (nth_error_In b j Ev).
  - intros i' b' Hi'. exact (proj1 (Hbs i' b' Hi')).
Qed.

(** Two clusters of two points on a line, each draw returning its mean. *)
Lemma make_data_cluster_slices_witness :
  exists v, nth_error [0; 0; 3; 3]%float (1 * Z.to_nat 2 + 0) = Some v /\
            @drawn float mean_sampler 3 1%float v.
Proof.
  apply (@make_data_cluster_slices float float_arith mean_sampler 2 2 1 1%float
           (cycle [0]) (fun i => cycle [0] (4 + i)) [[0; 0; 3; 3]]%float
           [0; 0; 3; 3]%float 1 0).
  - vm_compute. reflexivity.
  - now left.
  - simpl. lia.
  - simpl. lia.
Defined.

(** ** The first definition of [reassign] *)

Section FirstReassign.

Context {F : Type} {PF : PyFloat F}.

(** The inner loop started with two labels ends with the same distance,
    and with the same label unless it never found a nearer centroid. *)
Lemma scan_two_labels (lds : list (label * F)) (m : F) (l1 l2 : label) :
  fst (scan lds (m, l1)) = fst (scan lds (m, l2)) /\
  (snd (scan lds (m, l1)) = snd (scan lds (m, l2)) \/
   (snd (scan lds (m, l1)) = l1 /\ snd (scan lds (m, l2)) = l2)).
Proof.
  revert m l1 l2. induction lds as [|[c d] lds IH]; intros m l1 l2; simpl.
  - auto.
  - unfold closer. simpl. destruct (flt d m); [auto | apply IH].
Qed.

Lemma nearest_first_nearest (x : dataset) (cents : dict) (idx : nat) :
  match nearest_first x cents idx, nearest x cents idx with
  | Ok b1, Ok b2 => fst b1 = fst b2 /\ same_or_unassigned (snd b1) (snd b2)
  | Raise e1, Raise e2 => e1 = e2
  | _, _ => False
  end.
Proof.
  unfold nearest_first, nearest. rewrite !inner_rounds_scan.
  destruct (distances_from x cents idx) as [ds|e]; simpl; [|reflexivity].
  destruct (scan_two_labels (combine (map fst cents) ds) maxsize
              (Some EmptyString) None) as [Hfst Hsnd].
  split; [exact Hfst|]. unfold same_or_unassigned. tauto.
Qed.

Lemma reassign_first_loop (x : dataset) (cents : dict) (idxs : list nat)
      (mem0 : list label) :
  foldM (fun mem idx =>
           best <- nearest_first x cents idx ;;
           Ok (mem ++ [snd best])) idxs mem0
  = (bests <- mapM (nearest_first x cents) idxs ;; Ok (mem0 ++ map snd bests)).
Proof.
  revert mem0. induction idxs as [|idx idxs IH]; intros mem0; simpl.
  - now rewrite app_nil_r.
  - destruct (nearest_first x cents idx) as [best|e]; simpl; [|reflexivity].
    rewrite IH. destruct (mapM (nearest_first x cents) idxs) as [bests|e]; simpl;
      [|reflexivity].
    now rewrite <- app_assoc.
Qed.

Lemma nearest_first_all (x : dataset) (cents : dict) (idxs : list nat) :
  match mapM (nearest_first x cents) idxs, mapM (nearest x cents) idxs with
  | Ok bs1, Ok bs2 => Forall2 same_or_unassigned (map snd bs1) (map snd bs2)
  | Raise e1, Raise e2 => e1 = e2
  | _, _ => False
  end.
Proof.
  induction idxs as [|idx idxs IH]; simpl; [constructor|].
  pose proof (nearest_first_nearest x cents idx) as H.
  destruct (nearest_first x cents idx) as [b1|e1], (nearest x cents idx) as [b2|e2];
    simpl; try contradiction; [|exact H].
  destruct (mapM (nearest_first x cents) idxs) as [bs1|e1],
           (mapM (nearest x cents) idxs) as [bs2|e2];
    simpl; try contradiction; [|exact IH].
  constructor; [exact (proj2 H) | exact IH].
Qed.

End FirstReassign.

(** The scoring [reassign] that replaces the first definition labels the
    points as the first did, but for a point that no centroid is nearer to
    than [sys.maxsize], which the first labels with the empty string and
    the second with [None]: a membership the second returns is, up to that,
    the one the first returns, and an exception the first raises the second
    raises too. *)
Theorem reassign_first_same_labels :
  forall (F : Type) (PF : PyFloat F) (x : dataset) (centroids : dict),
    (forall mem cost,
        reassign x centroids = Ok (mem, cost) ->
        exists mem1,
          reassign_first x centroids = Ok mem1 /\
          Forall2 same_or_unassigned mem1 mem) /\
    (forall e, reassign_first x centroids = Raise e ->
               reassign x centroids = Raise e).
Proof.
  intros F PF x centroids. rewrite reassign_eq. unfold reassign_first.
  destruct (index x 0) as [x0|e0]; simpl;
    [|split; [discriminate | intros e H; now inversion H]].
  rewrite reassign_first_loop.
  pose proof (nearest_first_all x centroids (seq 0 (length x0))) as H.
  destruct (mapM (nearest_first x centroids) (seq 0 (length x0))) as [bs1|e1],
           (mapM (nearest x centroids) (seq 0 (length x0))) as [bs2|e2];
    simpl; try contradiction.
  - split; [|discriminate]. intros mem cost Hr.
    destruct (fdiv _ _); simpl in Hr; [|discriminate].
    inversion Hr; subst. eauto.
  - subst e2. split; [discriminate | intros e H; now inversion H].
Qed.

(** Two points and two centroids on a line. *)
Lemma reassign_first_same_labels_witness :
  exists mem1,
    @reassign_first float _ [[0; 3]]%float
      [(Some "red"%string, [[1]]%float); (Some "orange"%string, [[2.5]]%float)]
    = Ok mem1 /\
    Forall2 same_or_unassigned mem1 [Some "red"; Some "orange"]%string.
Proof.
  apply (proj1 (@reassign_first_same_labels float float_arith [[0; 3]]%float
                  [(Some "red"%string, [[1]]%float);
                   (Some "orange"%string, [[2.5]]%float)])
           [Some "red"; Some "orange"]%string 0.75%float).
  vm_compute. reflexivity.
Defined.

(** ** More on the Distance Metric *)

Section DistanceSymmetry.

Context {F : Type} {PF : PyFloat F}.

Hypothesis square_sym : forall a b : F, fpow2 (fsub a b) = fpow2 (fsub b a).

Lemma index_raises {A : Type} (l : list A) (i : nat) (e : exn) :
  index l i = Raise e -> e = IndexError.
Proof. unfold index. destruct (nth_error l i); intros H; now inversion H. Qed.

Lemma squares_sym (p1 p2 : point) :
  mapM (fun ij => a <- index (fst ij) 0 ;; b <- index (snd ij) 0 ;;
                  fpow2 (fsub a b)) (combine p1 p2)
  = mapM (fun ij => a <- index (fst ij) 0 ;; b <- index (snd ij) 0 ;;
                    fpow2 (fsub a b)) (combine p2 p1).
Proof.
  revert p2. induction p1 as [|c1 p1 IH]; intros [|c2 p2]; simpl; try reflexivity.
  rewrite IH. f_equal.
  destruct (index c1 0) as [a|e1] eqn:E1, (index c2 0) as [b|e2] eqn:E2; simpl;
    try reflexivity.
  - apply square_sym.
  - apply index_raises in E1, E2. now subst.
Qed.

Lemma distance_sym_of_squares (p1 p2 : point) : distance p1 p2 = distance p2 p1.
Proof. unfold distance. now rewrite squares_sym. Qed.

End DistanceSymmetry.

(** Rounding to a given sign: the sign changes nothing else. *)
Lemma binary_round_aux_abs (s : bool) (m e : Z) (l : SpecFloat.location) :
  SpecFloat.SFabs (SpecFloat.binary_round_aux prec emax s m e l)
  = SpecFloat.SFabs (SpecFloat.binary_round_aux prec emax false m e l).
Proof.
  unfold SpecFloat.binary_round_aux.
  destruct (SpecFloat.shr_fexp prec emax m e l) as [mrs' e'].
  destruct (SpecFloat.shr_fexp prec emax _ e' SpecFloat.loc_Exact) as [mrs'' e''].
  destruct (SpecFloat.shr_m mrs''); simpl; try reflexivity.
  destruct (_ <=? _)%Z; reflexivity.
Qed.

Lemma binary_normalize_opp_abs (z e : Z) (s : bool) :
  SpecFloat.SFabs (SpecFloat.binary_normalize prec emax (- z) e s)
  = SpecFloat.SFabs (SpecFloat.binary_normalize prec emax z e s).
Proof.
  unfold SpecFloat.binary_normalize, SpecFloat.binary_round.
  destruct z as [|p|p]; simpl; try reflexivity;
    destruct (SpecFloat.shl_align p e _) as [mz ez];
    [|symmetry]; apply binary_round_aux_abs.
Qed.

(** [a - b] and [b - a] differ by their sign at most. *)
Lemma SFsub_swap_abs (x y : SpecFloat.spec_float) :
  SpecFloat.SFabs (SF64sub x y) = SpecFloat.SFabs (SF64sub y x).
Proof.
  unfold SF64sub, SpecFloat.SFsub.
  destruct x as [sx|sx| |sx mx ex], y as [sy|sy| |sy my ey];
    try (destruct sx, sy; reflexivity); try (destruct sx; reflexivity);
    try (destruct sy; reflexivity); try reflexivity.
  rewrite (Z.min_comm ey ex).
  rewrite <- binary_normalize_opp_abs. f_equal. f_equal. lia.
Qed.

Lemma float_abs_sub_sym (a b : float) :
  PrimFloat.abs (PrimFloat.sub a b) = PrimFloat.abs (PrimFloat.sub b a).
Proof. apply Prim2SF_inj. rewrite !abs_spec, !sub_spec. apply SFsub_swap_abs. Qed.

Lemma real_square_sym (a b : R) :
  @fpow2 R real_arith (fsub a b) = fpow2 (fsub b a).
Proof. simpl. f_equal. ring. Qed.

(** The distance of two points does not depend on which comes first,
    whatever the points: when one order raises an exception the other
    raises the same.  In binary64 this holds whatever [a ** 2] returns on
    [|a|], the subtraction being IEEE's; and it holds over the reals. *)
Theorem distance_symmetric :
  (forall (square : float -> result float) (p1 p2 : @point float),
      @distance float (float_arith_pow square) p1 p2
      = @distance float (float_arith_pow square) p2 p1) /\
  (forall p1 p2 : @point R, distance p1 p2 = distance p2 p1).
Proof.
  split; intros.
  - apply distance_sym_of_squares. intros a b. simpl. now rewrite float_abs_sub_sym.
  - apply distance_sym_of_squares. exact real_square_sym.
Qed.

Lemma mapM_Raise_inv {A B : Type} (f : A -> result B) (l : list A) (e : exn) :
  mapM f l = Raise e -> exists a, In a l /\ f a = Raise e.
Proof.
  induction l as [|a l IH]; simpl; [discriminate|].
  destruct (f a) as [b|e'] eqn:E; simpl.
  - destruct (mapM f l) as [bs|e']; simpl; [discriminate|].
    intros H. inversion H; subst. destruct (IH eq_refl) as [a' [Ha' Hf]]. eauto.
  - intros H. inversion H; subst. eauto.
Qed.

Section DistanceRange.

Context {F : Type} {PF : PyFloat F}.

Variable good : F -> Prop.

Hypothesis arith : distance_arith PF good.

(** What [distance] can raise: an [IndexError] of [i[0]], what a square
    raises, or what the square root of a sum of squares raises. *)
Lemma distance_raises (p1 p2 : point) (e : exn) :
  distance p1 p2 = Raise e ->
  e = IndexError \/ (exists a, fpow2 a = Raise e) \/
  (exists a, good a /\ fsqrt a = Raise e).
Proof.
  unfold distance. intros H.
  destruct (mapM _ (combine p1 p2)) as [sq|e'] eqn:Hsq; simpl in H.
  - right. right. exists (fsum sq). split; [|exact H].
    apply (fsum_good arith). clear H. apply mapM_Forall2 in Hsq.
    induction Hsq as [|ij s l sq Hs _ IH]; constructor; [|exact IH].
    destruct (index (fst ij) 0) as [a|e1]; simpl in Hs; [|discriminate].
    destruct (index (snd ij) 0) as [b|e2]; simpl in Hs; [|discriminate].
    exact (da_pow2 arith _ Hs).
  - inversion H; subst e'. apply mapM_Raise_inv in Hsq.
    destruct Hsq as [ij [_ Hij]].
    destruct (index (fst ij) 0) as [a|e1] eqn:E1; simpl in Hij;
      [|inversion Hij; subst; left; exact (index_raises _ _ E1)].
    destruct (index (snd ij) 0) as [b|e2] eqn:E2; simpl in Hij;
      [|inversion Hij; subst; left; exact (index_raises _ _ E2)].
    right. left. eauto.
Qed.

End DistanceRange.

(** A binary64 number whose sign bit is clear is not below 0. *)
Lemma float_good_not_below_zero (a : float) :
  float_good a -> PrimFloat.ltb a 0 = false.
Proof.
  unfold float_good. rewrite ltb_spec.
  change (Prim2SF 0) with (SpecFloat.S754_zero false).
  destruct (Prim2SF a) as [s|s| |s m e]; simpl; try destruct s; simpl; intros;
    try discriminate; reflexivity.
Qed.

(** Binary64 has the laws of [distance_arith] whatever the square, as long
    as the square has its sign bit clear or is not a number. *)
Lemma float_pow_distance_arith (square : float -> result float) :
  (forall a b : float, square a = Ok b -> float_good b) ->
  distance_arith (float_arith_pow square) float_good.
Proof.
  intros Hsq. constructor; unfold float_good; simpl.
  - exact float_add_comm.
  - reflexivity.
  - intros a b Ha Hb. rewrite add_spec. now apply SFadd_nonneg.
  - intros a Ha. apply Prim2SF_inj. rewrite add_spec.
    change (Prim2SF 0) with (SpecFloat.S754_zero false). now apply SFadd_zero_l.
  - intros a b H. exact (Hsq _ _ H).
  - intros a b Ha H. destruct (PrimFloat.ltb a 0); [discriminate|].
    apply (f_equal (fun r => match r with Ok v => v | Raise _ => 0%float end)) in H.
    subst b. rewrite sqrt_spec. now apply SFsqrt_nonneg.
  - intros a. apply float_sub_self. reflexivity.
  - reflexivity.
Qed.

Lemma rounded_square_good (a b : float) : rounded_square a = Ok b -> float_good b.
Proof.
  unfold rounded_square, float_good. intros H. destruct (_ && _); [discriminate|].
  apply (f_equal (fun r => match r with Ok v => v | Raise _ => 0%float end)) in H.
  subst b. rewrite mul_spec. apply SFmul_self_nonneg.
Qed.

Lemma rounded_square_raises (a : float) (e : exn) :
  rounded_square a = Raise e -> e = OverflowError.
Proof.
  unfold rounded_square. destruct (_ && _); [|discriminate]. intros H. now inversion H.
Qed.

(** [distance] never takes the square root of a number below zero, so it
    never raises the [ValueError] of [math.sqrt].  In binary64, whatever
    [a ** 2] returns on [|a|] as long as it has its sign bit clear or is not
    a number and raises nothing but [OverflowError]: [distance] raises
    nothing but the [IndexError] of a point with an empty coordinate and
    that [OverflowError], and the distance it returns is not below 0.0.
    Over the reals it raises nothing but the [IndexError], and the distance
    is not below 0. *)
Theorem distance_not_below_zero :
  (forall square : float -> result float,
      (forall a b : float, square a = Ok b -> float_good b) ->
      (forall (a : float) (e : exn), square a = Raise e -> e = OverflowError) ->
      (forall (p1 p2 : @point float) (e : exn),
          @distance float (float_arith_pow square) p1 p2 = Raise e ->
          e = IndexError \/ e = OverflowError) /\
      (forall (p1 p2 : @point float) (d : float),
          @distance float (float_arith_pow square) p1 p2 = Ok d ->
          PrimFloat.ltb d 0 = false)) /\
  (forall (p1 p2 : @point R) (e : exn),
      distance p1 p2 = Raise e -> e = IndexError) /\
  (forall (p1 p2 : @point R) (d : R),
      distance p1 p2 = Ok d -> (0 <= d)%R).
Proof.
  split; [|split].
  - intros square Hgood Hraise. split.
    + intros p1 p2 e H.
      destruct (distance_raises (float_pow_distance_arith square Hgood) _ _ H)
        as [He | [[a Ha] | [a [Ha' Ha]]]].
      * now left.
      * right. exact (Hraise _ _ Ha).
      * exfalso. simpl in Ha. rewrite (float_good_not_below_zero Ha') in Ha.
        discriminate.
    + intros p1 p2 d H. apply float_good_not_below_zero.
      exact (distance_good (float_pow_distance_arith square Hgood) _ _ H).
  - intros p1 p2 e H.
    destruct (distance_raises real_distance_arith _ _ H)
      as [He | [[a Ha] | [a [Hgood Ha]]]].
    + exact He.
    + discriminate.
    + exfalso. simpl in Ha. unfold real_good in Hgood.
      destruct (Rlt_dec a 0); [lra | discriminate].
  - intros p1 p2 d H. exact (distance_good real_distance_arith _ _ H).
Qed.

(** With the correctly rounded square: the distance of (-1,-1) and (2,3),
    and a point with an empty coordinate. *)
Lemma distance_not_below_zero_witness :
  PrimFloat.ltb 5 0 = false /\
  (IndexError = IndexError \/ IndexError = OverflowError).
Proof.
  destruct (proj1 distance_not_below_zero rounded_square rounded_square_good
              rounded_square_raises) as [Hraise Hrange].
  split.
  - apply (Hrange [[-1]; [-1]]%float [[2]; [3]]%float). vm_compute. reflexivity.
  - apply (Hraise [[]] [[1]]%float). reflexivity.
Defined.

(** A number that is neither infinite nor not a number, minus itself, is
    0.0. *)
Lemma float_finite_sub_self (v : float) :
  PrimFloat.is_finite v = true -> PrimFloat.sub v v = 0%float.
Proof.
  intros H. apply Prim2SF_inj. rewrite sub_spec.
  change (Prim2SF 0) with (SpecFloat.S754_zero false).
  unfold PrimFloat.is_finite, PrimFloat.is_nan, PrimFloat.is_infinity in H.
  rewrite !eqb_spec, abs_spec in H.
  change (Prim2SF infinity) with (SpecFloat.S754_infinity false) in H.
  destruct (Prim2SF v) as [s|s| |s m e].
  - destruct s; reflexivity.
  - destruct s; simpl in H; discriminate.
  - simpl in H. discriminate.
  - unfold SF64sub, SpecFloat.SFsub. rewrite Z.sub_diag. reflexivity.
Qed.

Lemma float_squares_self (p : @point float) :
  finite_point p ->
  mapM (fun ij => a <- index (fst ij) 0 ;; b <- index (snd ij) 0 ;;
                  fpow2 (fsub a b)) (combine p p)
  = Ok (repeat 0%float (length p)).
Proof.
  induction 1 as [|c p [v [-> Hv]] _ IH]; [reflexivity|].
  cbn [combine mapM fst snd length repeat]. rewrite IH.
  change (index [v] 0) with (Ok v). cbn [bind].
  change (@fsub float float_arith v v) with (PrimFloat.sub v v).
  rewrite (float_finite_sub_self v Hv). reflexivity.
Qed.

Lemma float_sum_zeros (n : nat) : @fsum float _ (repeat 0%float n) = 0%float.
Proof.
  unfold fsum. induction n as [|n IH]; [reflexivity|]. simpl.
  change (PrimFloat.add 0 0) with 0%float. exact IH.
Qed.

Lemma real_squares_self (p : @point R) :
  singletons p ->
  mapM (fun ij => a <- index (fst ij) 0 ;; b <- index (snd ij) 0 ;;
                  fpow2 (fsub a b)) (combine p p)
  = Ok (repeat 0%R (length p)).
Proof.
  induction 1 as [|c p [v ->] _ IH]; [reflexivity|].
  cbn [combine mapM fst snd length repeat]. rewrite IH.
  change (index [v] 0) with (Ok v). cbn [bind]. simpl.
  do 2 f_equal. ring.
Qed.

Lemma real_sum_zeros (n : nat) (a : R) : fold_left Rplus (repeat 0%R n) a = a.
Proof.
  revert a. induction n as [|n IH]; intros a; simpl; [reflexivity|].
  rewrite IH. ring.
Qed.

(** A sum of numbers that are not below 0 is 0 only when they all are. *)
Lemma real_sum_zero (sq : list R) (a : R) :
  (0 <= a)%R -> Forall (fun s => (0 <= s)%R) sq ->
  fold_left Rplus sq a = 0%R -> a = 0%R /\ Forall (fun s => s = 0%R) sq.
Proof.
  intros Ha Hsq. revert a Ha. induction Hsq as [|s sq Hs _ IH]; intros a Ha; simpl.
  - auto.
  - intros H. destruct (IH (a + s)%R) as [Has Hall]; [lra | exact H |].
    split; [lra|]. constructor; [lra | exact Hall].
Qed.

Lemma real_squares_zero (p1 p2 : @point R) (sq : list R) :
  singletons p1 -> singletons p2 -> length p1 = length p2 ->
  mapM (fun ij => a <- index (fst ij) 0 ;; b <- index (snd ij) 0 ;;
                  fpow2 (fsub a b)) (combine p1 p2) = Ok sq ->
  Forall (fun s => s = 0%R) sq -> p1 = p2.
Proof.
  intros H1. revert p2 sq. induction H1 as [|c1 p1 [a ->] _ IH];
    intros p2 sq H2 Hlen Hsq Hall.
  - destruct p2; [reflexivity | discriminate].
  - destruct H2 as [|c2 p2 [b ->] H2]; [discriminate|].
    cbn [combine mapM fst snd] in Hsq.
    change (index [a] 0) with (Ok a) in Hsq. change (index [b] 0) with (Ok b) in Hsq.
    cbn [bind] in Hsq.
    destruct (mapM _ (combine p1 p2)) as [sq'|e] eqn:E; simpl in Hsq; [|discriminate].
    inversion Hsq; subst sq. inversion Hall as [|? ? H0 Hall']; subst.
    assert (Hab : a = b).
    { assert (Hsqr : Rsqr (a - b) = 0%R) by (unfold Rsqr; exact H0).
      apply Rsqr_0_uniq in Hsqr. lra. }
    subst b. f_equal. apply (IH p2 sq'); auto.
Qed.

(** The distance of a point to itself is 0.0 in binary64 when no coordinate
    is infinite or not a number, and 0 over the reals; over the reals two
    points of as many coordinates are at distance 0 only when they are the
    same point. *)
Theorem distance_zero :
  (forall p : @point float, finite_point p -> distance p p = Ok 0%float) /\
  (forall p1 p2 : @point R,
      singletons p1 -> singletons p2 -> length p1 = length p2 ->
      (distance p1 p2 = Ok 0%R <-> p1 = p2)).
Proof.
  split.
  - intros p Hp. unfold distance. rewrite (float_squares_self Hp). cbn [bind].
    rewrite float_sum_zeros. reflexivity.
  - intros p1 p2 H1 H2 Hlen. split.
    + unfold distance. intros H.
      destruct (real_squares_total H1 H2) as [sq [Hsq Hpos]].
      rewrite Hsq in H. cbn [bind] in H.
      pose proof (@real_fold_nonneg sq 0%R (Rle_refl 0) Hpos) as Hsum.
      unfold fsum in H. simpl in H.
      destruct (Rlt_dec (fold_left Rplus sq 0%R) 0%R) as [Hneg|_]; [discriminate|].
      assert (Hroot : R_sqrt.sqrt (fold_left Rplus sq 0%R) = 0%R).
      { apply (f_equal (fun r => match r with Ok v => v | Raise _ => 1%R end)) in H.
        exact H. }
      apply sqrt_eq_0 in Hroot; [|exact Hsum].
      destruct (@real_sum_zero sq 0%R (Rle_refl 0) Hpos Hroot) as [_ Hall].
      exact (real_squares_zero H1 H2 Hlen Hsq Hall).
    + intros <-. unfold distance. rewrite (real_squares_self H1). cbn [bind].
      unfold fsum. simpl. rewrite real_sum_zeros.
      destruct (Rlt_dec 0 0) as [Hneg|_]; [lra|]. now rewrite sqrt_0.
Qed.

(** The point (1.5, -2), and the points 1 and 2 of the real line. *)
Lemma distance_zero_witness :
  @distance float _ [[1.5]; [-2]]%float [[1.5]; [-2]]%float = Ok 0%float /\
  (@distance R _ [[1]]%R [[1]]%R = Ok 0%R <-> [[1%R]] = [[1%R]]).
Proof.
  split.
  - apply (proj1 distance_zero [[1.5]; [-2]]%float).
    repeat constructor; eexists; split; reflexivity.
  - apply (proj2 distance_zero [[1]]%R [[1]]%R).
    + repeat constructor. now exists 1%R.
    + repeat constructor. now exists 1%R.
    + reflexivity.
Defined.

(** ** The clusters of a membership *)

Section Partition.

Context {A : Type}.

Variable key : A -> label.

Lemma concat_filter_skip (a : A) (G : label -> list A) (ls : list label) :
  ~ In (key a) ls ->
  concat (map (fun l => if label_eqb (key a) l then a :: G l else G l) ls)
  = concat (map G ls).
Proof.
  induction ls as [|l ls IH]; intros Hin; simpl; [reflexivity|].
  destruct (label_eqb (key a) l) eqn:E.
  - exfalso. apply Hin. left. symmetry. now apply label_eqb_eq.
  - rewrite IH; [reflexivity|]. intros H. apply Hin. now right.
Qed.

Lemma concat_filter_once (a : A) (G : label -> list A) (ls : list label) :
  NoDup ls -> In (key a) ls ->
  Permutation
    (concat (map (fun l => if label_eqb (key a) l then a :: G l else G l) ls))
    (a :: concat (map G ls)).
Proof.
  induction 1 as [|l ls Hl Hnd IH]; intros Hin; [contradiction|]. simpl.
  destruct (label_eqb (key a) l) eqn:E.
  - apply label_eqb_eq in E. subst l. now rewrite concat_filter_skip.
  - destruct Hin as [Heq | Hin].
    + subst l. now rewrite label_eqb_refl in E.
    + etransitivity; [apply Permutation_app_head; apply IH; exact Hin|].
      symmetry. apply Permutation_middle.
Qed.

(** Filtering a list by each key of a duplicate-free list of keys that has
    every key of the list shares out its elements. *)
Lemma filters_partition (xs : list A) (ls : list label) :
  NoDup ls -> (forall a, In a xs -> In (key a) ls) ->
  Permutation
    (concat (map (fun l => filter (fun a => label_eqb (key a) l) xs) ls)) xs.
Proof.
  intros Hnd. induction xs as [|a xs IH]; intros Hin; simpl.
  - clear Hnd Hin. induction ls as [|l ls IHl]; simpl; [constructor | exact IHl].
  - etransitivity;
      [apply (@concat_filter_once a (fun l => filter (fun b => label_eqb (key b) l) xs));
       [exact Hnd | apply Hin; now left]|].
    constructor. apply IH. intros b Hb. apply Hin. now right.
Qed.

End Partition.

Lemma map_fst_combine {A B : Type} (l1 : list A) (l2 : list B) :
  length l1 <= length l2 -> map fst (combine l1 l2) = l1.
Proof.
  revert l2. induction l1 as [|a l1 IH]; intros [|b l2] H; simpl in *;
    try reflexivity; [lia|].
  rewrite IH; [reflexivity | lia].
Qed.

(** The subsets that [select_members] selects for the labels of
    [set(membership)] share out the points: in every column that has no
    more values than there are labels, the selected values, put together
    over all the labels, are the values of the column, each one time. *)
Theorem select_members_partition :
  forall (F : Type) (SO : SetOrder) (x : @dataset F) (m : list label)
         (j : nat) (col : list F),
    set_iter_ok SO ->
    nth_error x j = Some col ->
    length col <= length m ->
    Permutation
      (concat (map (fun l => nth j (select_members x m l) []) (set_iter m)))
      col.
Proof.
  intros F SO x m j col Hso Hj Hlen.
  assert (Hcol : forall l,
             nth j (select_members x m l) []
             = map fst (filter (fun il => label_eqb (snd il) l) (combine col m))).
  { intros l. apply nth_error_nth. unfold select_members.
    now rewrite nth_error_map, Hj. }
  rewrite (map_ext _ _ Hcol).
  rewrite <- (map_map (fun l => filter (fun il => label_eqb (snd il) l) (combine col m))
                      (map fst)).
  rewrite <- concat_map.
  destruct (Hso m) as [Hnd Hin].
  eapply Permutation_trans.
  - apply Permutation_map. apply filters_partition; [exact Hnd|].
    intros [v l] Hvl. apply Hin. exact (in_combine_r _ _ _ _ Hvl).
  - now rewrite (map_fst_combine col m Hlen).
Qed.

(** Four points on a line, two "red", two "orange". *)
Lemma select_members_partition_witness :
  Permutation
    (concat (map (fun l => nth 0 (@select_members float [[1; 2; 3; 4]]%float
                                    [Some "red"; Some "orange"; Some "red";
                                     Some "orange"]%string l) [])
                 (first_seen [Some "red"; Some "orange"; Some "red";
                              Some "orange"]%string)))
    [1; 2; 3; 4]%float.
Proof.
  apply (@select_members_partition float first_seen_order [[1; 2; 3; 4]]%float
           [Some "red"; Some "orange"; Some "red"; Some "orange"]%string 0
           [1; 2; 3; 4]%float).
  - exact first_seen_ok.
  - reflexivity.
  - simpl. lia.
Defined.

(** ** The centroid of no points *)

Section EmptySubset.

Context {F : Type} {PF : PyFloat F}.

Hypothesis div_zero : forall a : F, fdiv a (of_len 0) = Raise ZeroDivisionError.

Lemma select_absent (col : list F) (m : list label) (l : label) :
  ~ In l m ->
  map fst (filter (fun il => label_eqb (snd il) l) (combine col m)) = [].
Proof.
  revert col. induction m as [|l' m IH]; intros col Hin.
  - destruct col; reflexivity.
  - destruct col as [|v col]; [reflexivity|]. simpl.
    destruct (label_eqb l' l) eqn:E.
    + exfalso. apply Hin. left. now apply label_eqb_eq.
    + apply IH. intros H. apply Hin. now right.
Qed.

Lemma centroid_no_points (cols : dataset) :
  centroid ([] :: cols) = Raise ZeroDivisionError.
Proof. unfold centroid. simpl. now rewrite div_zero. Qed.

Lemma centroid_absent_label (x0 : list F) (rest : dataset) (m : list label)
      (l : label) :
  ~ In l m -> centroid (select_members (x0 :: rest) m l) = Raise ZeroDivisionError.
Proof.
  intros Hin. unfold select_members. cbn [map].
  rewrite (@select_absent x0 m l Hin). apply centroid_no_points.
Qed.

End EmptySubset.

(** [centroid] of a subset without points raises [ZeroDivisionError] as
    soon as the data has a dimension, and so does the centroid of the
    members of a label that no point carries, as for a colour of [co] that
    the random initialization did not draw; of data without a dimension it
    is the empty point.  In binary64 and over the reals. *)
Theorem centroid_of_no_points :
  (forall (cols : @dataset float),
      centroid ([] :: cols) = Raise ZeroDivisionError) /\
  (forall (x0 : list float) (rest : dataset) (m : list label) (l : label),
      ~ In l m ->
      centroid (select_members (x0 :: rest) m l) = Raise ZeroDivisionError) /\
  (forall (cols : @dataset R),
      centroid ([] :: cols) = Raise ZeroDivisionError) /\
  (forall (x0 : list R) (rest : dataset) (m : list label) (l : label),
      ~ In l m ->
      centroid (select_members (x0 :: rest) m l) = Raise ZeroDivisionError) /\
  @centroid float _ [] = Ok [] /\
  @centroid R _ [] = Ok [].
Proof.
  assert (Hf : forall a : float, fdiv a (of_len 0) = Raise ZeroDivisionError)
    by reflexivity.
  assert (Hr : forall a : R, fdiv a (of_len 0) = Raise ZeroDivisionError).
  { intros a. simpl. destruct (Req_dec_T 0 0) as [_|H]; [reflexivity | now elim H]. }
  split; [exact (centroid_no_points Hf)|].
  split; [intros x0 rest m l; exact (@centroid_absent_label _ _ Hf x0 rest m l)|].
  split; [exact (centroid_no_points Hr)|].
  split; [intros x0 rest m l; exact (@centroid_absent_label _ _ Hr x0 rest m l)|].
  split; reflexivity.
Qed.

(** Two points labelled "red": no point is "orange". *)
Lemma centroid_of_no_points_witness :
  @centroid float _ (select_members [[1; 2]; [3; 4]]%float
                       [Some "red"; Some "red"]%string (Some "orange"%string))
  = Raise ZeroDivisionError.
Proof.
  apply (proj1 (proj2 centroid_of_no_points) [1; 2]%float [[3; 4]]%float
           [Some "red"; Some "red"]%string (Some "orange"%string)).
  intros [H | [H | []]]; discriminate.
Defined.

(** ** The random initialization, with one to eight clusters *)

Lemma nth_in_firstn {A : Type} (l : list A) (j k : nat) (d : A) :
  j < k -> j < length l -> In (nth j l d) (firstn k l).
Proof.
  revert j k. induction l as [|a l IH]; intros j k Hk Hl; simpl in Hl; [lia|].
  destruct k as [|k]; [lia|]. destruct j as [|j]; simpl; [now left|].
  right. apply IH; lia.
Qed.

(** The labels are the colours at the draws, taken modulo [k], and every
    label uses up one draw. *)
Lemma guess_labels_draws (n : nat) (k : Z) (g : Rng) :
  (1 <= k <= 8)%Z ->
  guess_labels n k g
  = (Ok (map (fun j => Some (nth (g j mod Z.to_nat k) co EmptyString)) (seq 0 n)),
     fun i => g (n + i)).
Proof.
  intros Hk. revert g. induction n as [|n IH]; intros g; [reflexivity|].
  cbn [guess_labels]. unfold bindM at 1, random_choice_range.
  destruct (Z.leb_spec k 0) as [Hle|_]; [lia|].
  assert (Hj : g 0 mod Z.to_nat k < 8).
  { pose proof (Nat.mod_upper_bound (g 0) (Z.to_nat k)). lia. }
  unfold bindM at 1, pure_call at 1, index.
  destruct (nth_error co (g 0 mod Z.to_nat k)) as [s|] eqn:Es;
    [|apply nth_error_None in Es; simpl in Es; lia].
  unfold bindM, retM. rewrite IH. f_equal. f_equal.
  cbn [seq map]. rewrite <- seq_shift, map_map. f_equal.
  f_equal. symmetry. now apply nth_error_nth.
Qed.

(** With one to eight clusters and at least one point the random
    initialization raises nothing: it returns one label per point, label
    [j] being the colour of [co] at draw [j] modulo [k], one of the first
    [k] colours, and leaves the generator one draw further per point.  A
    run of [k_means] draws no other random number. *)
Theorem guess_clusters_labels :
  forall (F : Type) (PF : PyFloat F) (SO : SetOrder) (x0 : list F) (rest : dataset)
         (k : Z) (g : Rng),
    1 <= length x0 ->
    (1 <= k <= 8)%Z ->
    exists m : list label,
      guess_clusters (x0 :: rest) k g = (Ok (Some m), fun i => g (length x0 + i)) /\
      length m = length x0 /\
      (forall j, j < length x0 ->
                 nth_error m j = Some (Some (nth (g j mod Z.to_nat k) co EmptyString))) /\
      Forall (fun l => exists s, l = Some s /\ In s (firstn (Z.to_nat k) co)) m /\
      (forall fuel, snd (k_means fuel (x0 :: rest) k g) = fun i => g (length x0 + i)).
Proof.
  intros F PF SO x0 rest k g Hn Hk.
  assert (Hg : guess_clusters (x0 :: rest) k g
               = (Ok (Some (map (fun j => Some (nth (g j mod Z.to_nat k) co EmptyString))
                                (seq 0 (length x0)))),
                  fun i => g (length x0 + i))).
  { unfold guess_clusters, bindM at 1, pure_call at 1. rewrite index_cons_0.
    destruct (length x0) as [|n] eqn:En; [lia|].
    unfold bindM, retM. now rewrite guess_labels_draws. }
  eexists. split; [exact Hg|].
  split; [now rewrite length_map, length_seq|].
  split; [|split].
  - intros j Hj. rewrite nth_error_map, nth_error_seq.
    destruct (Nat.ltb_spec j (length x0)); [reflexivity | lia].
  - apply Forall_forall. intros l Hl. apply in_map_iff in Hl.
    destruct Hl as [j [<- _]]. eexists. split; [reflexivity|].
    pose proof (Nat.mod_upper_bound (g j) (Z.to_nat k)).
    apply nth_in_firstn; simpl; lia.
  - intros fuel. unfold k_means, k_means_count. rewrite Hg.
    destruct (k_loop _ _ _); reflexivity.
Qed.

(** Three points and two clusters, the draws being 0, 1, 2, 3, ... *)
Lemma guess_clusters_labels_witness :
  exists m : list label,
    @guess_clusters float [[1; 2; 3]]%float 2 (fun i => i)
    = (Ok (Some m), fun i => 3 + i) /\
    length m = 3 /\
    (forall j, j < 3 ->
               nth_error m j = Some (Some (nth (j mod Z.to_nat 2) co EmptyString))) /\
    Forall (fun l => exists s, l = Some s /\ In s (firstn (Z.to_nat 2) co)) m /\
    (forall fuel,
        snd (@k_means float float_arith first_seen_order fuel [[1; 2; 3]]%float 2
               (fun i => i))
        = fun i => 3 + i).
Proof.
  apply (@guess_clusters_labels float float_arith first_seen_order [1; 2; 3]%float []
           2%Z (fun i => i)).
  - simpl. lia.
  - lia.
Defined.

(** ** The label a point is given *)

Section NearestLabel.

Context {F : Type} {PF : PyFloat F}.

(** The inner loop ends as it started or with a label and its distance. *)
Lemma scan_label (lds : list (label * F)) (b : F * label) :
  scan lds b = b \/ In (snd (scan lds b), fst (scan lds b)) lds.
Proof.
  revert b. induction lds as [|[c d] lds IH]; intros b; simpl; [now left|].
  destruct (IH (closer b c d)) as [H | H]; [|right; now right].
  rewrite H. unfold closer. destruct (flt d (fst b)); [right; now left | now left].
Qed.

Lemma nth_error_combine {A B : Type} (l1 : list A) (l2 : list B) (j : nat)
      (a : A) (b : B) :
  nth_error (combine l1 l2) j = Some (a, b) ->
  nth_error l1 j = Some a /\ nth_error l2 j = Some b.
Proof.
  revert l2 j. induction l1 as [|a1 l1 IH]; intros [|b1 l2] [|j]; simpl;
    try discriminate.
  - intros H. inversion H. auto.
  - apply IH.
Qed.

Lemma nearest_scan (x : dataset) (cents : dict) (idx : nat) (best : F * label) :
  nearest x cents idx = Ok best ->
  exists ds,
    distances_from x cents idx = Ok ds /\
    best = scan (combine (map fst cents) ds) (maxsize, None).
Proof.
  unfold nearest. rewrite inner_rounds_scan.
  destruct (distances_from x cents idx) as [ds|e]; simpl; [|discriminate].
  intros H. inversion H. eauto.
Qed.

Lemma nearest_label_key (x : dataset) (cents : dict) (idx : nat) (best : F * label) :
  nearest x cents idx = Ok best -> snd best = None \/ In (snd best) (map fst cents).
Proof.
  intros H. destruct (nearest_scan _ _ _ H) as [ds [_ ->]].
  destruct (scan_label (combine (map fst cents) ds) (maxsize, None)) as [-> | Hin].
  - now left.
  - right. exact (in_combine_l _ _ _ _ Hin).
Qed.

Lemma reassign_labels_keys (x : dataset) (cents : dict) (mem : list label) (cost : F) :
  reassign x cents = Ok (mem, cost) ->
  Forall (fun l => l = None \/ In l (map fst cents)) mem.
Proof.
  rewrite reassign_eq. intros H.
  destruct (index x 0) as [x0|e]; simpl in H; [|discriminate].
  destruct (mapM (nearest x cents) (seq 0 (length x0))) as [bests|e] eqn:E;
    simpl in H; [|discriminate].
  destruct (fdiv _ _); simpl in H; [|discriminate]. inversion H; subst.
  apply mapM_Forall2 in E. clear H.
  induction E as [|idx best idxs bests Hb _ IH]; simpl; constructor; [|exact IH].
  exact (nearest_label_key _ _ _ Hb).
Qed.

Hypothesis order : strict_order PF.

Lemma nearest_is_nearest (x : dataset) (cents : dict) (idx : nat) (best : F * label) :
  nearest x cents idx = Ok best ->
  exists ds,
    distances_from x cents idx = Ok ds /\
    ((best = (maxsize, None) /\ Forall (fun d => flt d maxsize = false) ds) \/
     (exists j vc,
         nth_error cents j = Some (snd best, vc) /\
         nth_error ds j = Some (fst best) /\
         flt (fst best) maxsize = true /\
         Forall (fun d => flt d (fst best) = false) ds)).
Proof.
  intros H. destruct (nearest_scan _ _ _ H) as [ds [Hds Hbest]].
  exists ds. split; [exact Hds|].
  assert (Hlen : length (map fst cents) = length ds).
  { rewrite length_map. symmetry. exact (mapM_length _ _ Hds). }
  assert (H0 : found [] maxsize) by (left; split; [reflexivity | constructor]).
  assert (Hfound : found ds (fst best)).
  { pose proof (@scan_found _ _ order (combine (map fst cents) ds) [] maxsize None H0)
      as Hf.
    rewrite (map_snd_combine _ _ Hlen) in Hf. rewrite Hbest. exact Hf. }
  assert (Hlabel : best = (maxsize, None) \/
                   In (snd best, fst best) (combine (map fst cents) ds)).
  { rewrite Hbest. apply scan_label. }
  destruct Hfound as [[Hmax Hall] | [Hlt [_ Hmin]]].
  - left. split; [|exact Hall].
    pose proof (nearest_none _ _ _ Hds Hall) as Hn. rewrite H in Hn.
    now inversion Hn.
  - right. destruct Hlabel as [Hs | Hin].
    + rewrite Hs in Hlt. simpl in Hlt.
      rewrite (lt_irrefl order) in Hlt. discriminate.
    + apply In_nth_error in Hin. destruct Hin as [j Hj].
      apply nth_error_combine in Hj. destruct Hj as [Hl Hd].
      rewrite nth_error_map in Hl.
      destruct (nth_error cents j) as [[l vc]|] eqn:Ej; simpl in Hl; [|discriminate].
      inversion Hl; subst l. exists j, vc. auto.
Qed.

End NearestLabel.

(** [reassign] gives every point the label of a centroid nearest to it.
    With [<] a strict order, as in binary64 and over the reals: when
    [reassign] returns, the distances [ds] from point [idx] to the centroids
    are computed, and either the point is labelled [None] and none of them
    is below [sys.maxsize], or its label is the key of a centroid whose
    distance is below [sys.maxsize] and which no distance is below. *)
Theorem reassign_assigns_nearest :
  forall (F : Type) (PF : PyFloat F) (x : dataset) (centroids : dict)
         (mem : list label) (cost : F) (x0 : list F) (idx : nat),
    strict_order PF ->
    reassign x centroids = Ok (mem, cost) ->
    index x 0 = Ok x0 ->
    idx < length x0 ->
    exists (ds : list F) (l : label),
      distances_from x centroids idx = Ok ds /\
      nth_error mem idx = Some l /\
      ((l = None /\ Forall (fun d => flt d maxsize = false) ds) \/
       (exists j vc d,
           nth_error centroids j = Some (l, vc) /\
           nth_error ds j = Some d /\
           flt d maxsize = true /\
           Forall (fun d' => flt d' d = false) ds)).
Proof.
  intros F PF x centroids mem cost x0 idx Hord Hr Hx0 Hidx.
  destruct (reassign_label _ _ Hr Hx0 Hidx) as [best [Hbest Hnth]].
  destruct (nearest_is_nearest Hord _ _ _ Hbest) as [ds [Hds Hcase]].
  exists ds, (snd best). split; [exact Hds|]. split; [exact Hnth|].
  destruct Hcase as [[-> Hall] | [j [vc [Hj [Hd [Hlt Hmin]]]]]].
  - left. auto.
  - right. exists j, vc, (fst best). auto.
Qed.

(** Two points and two centroids on a line: point 1, at 3, is nearest to
    the second centroid. *)
Lemma reassign_assigns_nearest_witness :
  exists (ds : list float) (l : label),
    distances_from [[0; 3]]%float
      [(Some "red"%string, [[1]]%float); (Some "orange"%string, [[2.5]]%float)] 1
    = Ok ds /\
    nth_error [Some "red"; Some "orange"]%string 1 = Some l /\
    ((l = None /\ Forall (fun d => flt d maxsize = false) ds) \/
     (exists j vc d,
         nth_error [(Some "red"%string, [[1]]%float);
                    (Some "orange"%string, [[2.5]]%float)] j = Some (l, vc) /\
         nth_error ds j = Some d /\
         flt d maxsize = true /\
         Forall (fun d' => flt d' d = false) ds)).
Proof.
  apply (@reassign_assigns_nearest float float_arith [[0; 3]]%float
           [(Some "red"%string, [[1]]%float); (Some "orange"%string, [[2.5]]%float)]
           [Some "red"; Some "orange"]%string 0.75%float [0; 3]%float 1).
  - exact float_strict_order.
  - vm_compute. reflexivity.
  - reflexivity.
  - simpl. lia.
Defined.

(** [reassign] invents no label and loses no point: the membership it
    returns has one label per point of the first column, and each label is
    a key of the centroid mapping or [None]; with no centroid at all every
    point is labelled [None]. *)
Theorem reassign_labels_are_keys :
  forall (F : Type) (PF : PyFloat F) (x : dataset) (centroids : dict)
         (mem : list label) (cost : F),
    reassign x centroids = Ok (mem, cost) ->
    length mem = length (hd [] x) /\
    Forall (fun l => l = None \/ In l (map fst centroids)) mem /\
    (centroids = [] -> mem = repeat None (length (hd [] x))).
Proof.
  intros F PF x centroids mem cost Hr.
  assert (Hlen : length mem = length (hd [] x)).
  { destruct x as [|x0 rest]; [discriminate|].
    exact (reassign_length _ _ Hr (index_cons_0 x0 rest)). }
  pose proof (reassign_labels_keys _ _ Hr) as Hkeys.
  split; [exact Hlen|]. split; [exact Hkeys|].
  intros ->. rewrite <- Hlen. clear Hlen Hr.
  induction Hkeys as [|l mem [-> | []] _ IH]; simpl; [reflexivity | now f_equal].
Qed.

Lemma reassign_labels_are_keys_witness :
  length [Some "red"; Some "orange"]%string = length (hd [] [[0; 3]]%float) /\
  Forall (fun l => l = None \/
                   In l (map fst [(Some "red"%string, [[1]]%float);
                                  (Some "orange"%string, [[2.5]]%float)]))
         [Some "red"; Some "orange"]%string /\
  ([(Some "red"%string, [[1]]%float); (Some "orange"%string, [[2.5]]%float)] = [] ->
   [Some "red"; Some "orange"]%string = repeat None (length (hd [] [[0; 3]]%float))).
Proof.
  apply (@reassign_labels_are_keys float float_arith [[0; 3]]%float
           [(Some "red"%string, [[1]]%float); (Some "orange"%string, [[2.5]]%float)]
           [Some "red"; Some "orange"]%string 0.75%float).
  vm_compute. reflexivity.
Defined.

(** ** What a run returns *)

Section RunFacts.

Context {F : Type} {PF : PyFloat F} {SO : SetOrder}.

Lemma loop_body_inv (data : dataset) (st st' : loop_state) :
  loop_body data st = Ok st' ->
  exists m cs m',
    membership st = Some m /\
    get_centroids data (Some m) = Ok cs /\
    reassign data cs = Ok (m', score st') /\
    membership st' = Some m' /\
    c st' = Some cs /\
    last_score st' = score st /\
    iterations st' = S (iterations st).
Proof.
  unfold loop_body. destruct (membership st) as [m|]; [|discriminate].
  destruct (get_centroids data (Some m)) as [cs|e] eqn:Hcs; [|discriminate].
  cbn [bind].
  destruct (reassign data cs) as [[m' s']|e] eqn:Hr; [|discriminate].
  cbn [bind fst snd].
  intros H. inversion H; subst; simpl. exists m, cs, m'. repeat split; assumption.
Qed.

(** The last pass of one pass or more. *)
Lemma passes_last (data : dataset) (n : nat) (st st' : loop_state) :
  passes data n st st' ->
  (n = 0 /\ st' = st) \/
  (exists n' prev,
      n = S n' /\ passes data n' st prev /\ continues prev = true /\
      loop_body data prev = Ok st').
Proof.
  induction 1 as [st | n st st1 st' Hc Hb Hp IH]; [now left|]. right.
  destruct IH as [[-> ->] | [n' [prev [-> [Hp' [Hc' Hb']]]]]].
  - exists 0, st. repeat split; auto. constructor.
  - exists (S n'), prev. repeat split; auto. econstructor; eauto.
Qed.

(** A run that returns has made a last pass, from a state of the run. *)
Lemma k_means_last_pass (data : dataset) (k : Z) (g : Rng) (fuel : nat)
      (r : run_result) (it : nat) :
  fst (k_means_count fuel data k g) = Some (Ok (r, it)) ->
  exists prev st',
    reachable data k g prev /\ continues prev = true /\
    loop_body data prev = Ok st' /\
    continues st' = false /\ loop_return st' = Ok (r, it).
Proof.
  unfold k_means_count.
  destruct (guess_clusters data k g) as [[m0|e] g'] eqn:Hg; simpl; [|discriminate].
  intros H. destruct (k_loop_returned _ _ _ H) as [n [st' [Hp [Hstop Hret]]]].
  destruct (passes_last Hp) as [[_ ->] | [n' [prev [_ [Hp' [Hc Hb]]]]]];
    [discriminate|].
  exists prev, st'. split; [|auto].
  apply (passes_reachable (n := n') (st := initial_state m0)); [|exact Hp'].
  now apply reachable_init with (g' := g').
Qed.

Lemma guess_labels_among (n : nat) (k : Z) (g g' : Rng) (m : list label) :
  guess_labels n k g = (Ok m, g') -> Forall (among_first k) m.
Proof.
  revert g g' m. induction n as [|n IH]; intros g g' m; simpl.
  - unfold retM. intros H. inversion H. constructor.
  - unfold bindM at 1, random_choice_range.
    destruct (Z.leb_spec k 0) as [Hle|Hk]; [discriminate|].
    unfold bindM at 1, pure_call at 1, index.
    destruct (nth_error co (g 0 mod Z.to_nat k)) as [s|] eqn:Es; [|discriminate].
    unfold bindM, retM.
    destruct (guess_labels n k (fun i => g (S i))) as [[rest|e] g2] eqn:Er;
      [|discriminate].
    intros H. inversion H; subst. constructor; [|exact (IH _ _ _ Er)].
    right. exists s. split; [reflexivity|].
    rewrite <- (nth_error_nth _ _ EmptyString Es).
    apply nth_in_firstn.
    + apply Nat.mod_upper_bound. lia.
    + apply nth_error_Some. now rewrite Es.
Qed.

Hypothesis so_ok : set_iter_ok SO.

(** After a pass every label is [None] or a label from before the pass. *)
Lemma loop_body_labels (data : dataset) (st st' : loop_state) (m m' : list label) :
  loop_body data st = Ok st' -> membership st = Some m -> membership st' = Some m' ->
  Forall (fun l => l = None \/ In l m) m'.
Proof.
  intros Hb Hm Hm'.
  destruct (loop_body_inv _ _ Hb) as [m1 [cs [m2 [Hm1 [Hcs [Hr [Hm2 _]]]]]]].
  rewrite Hm in Hm1. inversion Hm1; subst m1.
  rewrite Hm' in Hm2. inversion Hm2; subst m2.
  pose proof (reassign_labels_keys _ _ Hr) as Hkeys.
  rewrite (get_centroids_keys _ _ Hcs) in Hkeys.
  eapply Forall_impl; [|exact Hkeys]. intros l [-> | Hl]; [now left|].
  right. now apply (proj2 (so_ok m)).
Qed.

Lemma reachable_labels (data : dataset) (k : Z) (g : Rng) (st : loop_state) :
  reachable data k g st ->
  (forall m, membership st = Some m -> Forall (among_first k) m) /\
  (forall cs, c st = Some cs -> Forall (among_first k) (map fst cs)).
Proof.
  induction 1 as [m0 g' Hg | st st' Hr [IHm IHc] _ Hb].
  - split; [|discriminate]. simpl. intros m ->.
    unfold guess_clusters, bindM at 1, pure_call at 1 in Hg.
    destruct (index data 0) as [x0|e]; [|discriminate].
    destruct (length x0) as [|n]; [discriminate|].
    unfold bindM, retM in Hg.
    destruct (guess_labels (S n) k g) as [[l|e] g1] eqn:E; [|discriminate].
    inversion Hg; subst. exact (guess_labels_among _ _ _ E).
  - destruct (loop_body_inv _ _ Hb) as [m [cs [m' [Hm [Hcs [Hre [Hm' [Hc' _]]]]]]]].
    pose proof (IHm m Hm) as Hall. rewrite Forall_forall in Hall.
    assert (Hkeys : Forall (among_first k) (map fst cs)).
    { rewrite (get_centroids_keys _ _ Hcs). apply Forall_forall. intros l Hl.
      apply Hall. now apply (proj2 (so_ok m)). }
    split.
    + intros m1 Hm1. rewrite Hm' in Hm1. inversion Hm1; subst m1.
      pose proof (@loop_body_labels data st st' m m' Hb Hm Hm') as Hin.
      eapply Forall_impl; [|exact Hin]. intros l [-> | Hl]; [now left | now apply Hall].
    + intros cs1 Hcs1. rewrite Hc' in Hcs1. now inversion Hcs1; subst.
Qed.

End RunFacts.

Lemma among_first_In (k : Z) (l : label) :
  among_first k l -> In l (None :: map Some (firstn (Z.to_nat k) co)).
Proof.
  intros [-> | [s [-> Hs]]]; [now left|]. right. now apply in_map.
Qed.

(** A run of [k_means] keeps to the labels it drew.  After a pass every
    label is [None] or a label some point had before the pass, so that a
    cluster that has lost its points does not come back; and in what a run
    returns, the labels of the membership and the keys of the centroids are
    among the first [k] colours and [None], and there are at most [k + 1]
    centroids. *)
Theorem k_means_keeps_to_its_labels :
  forall (F : Type) (PF : PyFloat F) (SO : SetOrder) (data : dataset) (k : Z) (g : Rng),
    set_iter_ok SO ->
    (forall st st' m m',
        loop_body data st = Ok st' ->
        membership st = Some m -> membership st' = Some m' ->
        Forall (fun l => l = None \/ In l m) m') /\
    (forall fuel mem cs sc it,
        fst (k_means_count fuel data k g) = Some (Ok ((mem, cs, sc), it)) ->
        exists m,
          mem = Some m /\
          Forall (among_first k) m /\
          Forall (among_first k) (map fst cs) /\
          length cs <= S (Z.to_nat k)).
Proof.
  intros F PF SO data k g Hso. split.
  - intros st st' m m'. now apply loop_body_labels.
  - intros fuel mem cs sc it H.
    destruct (k_means_last_pass _ _ _ _ H) as [prev [st' [Hprev [Hc [Hb [_ Hret]]]]]].
    assert (Hst' : reachable data k g st')
      by now apply reachable_pass with (st := prev).
    destruct (reachable_labels Hso Hst') as [Hmem Hkeys].
    destruct (loop_body_inv _ _ Hb) as [m0 [cs0 [m [_ [Hcs0 [_ [Hm [Hc0 _]]]]]]]].
    unfold loop_return in Hret. rewrite Hc0, Hm in Hret. inversion Hret; subst.
    exists m. split; [reflexivity|]. split; [now apply Hmem|].
    split; [now apply Hkeys|].
    assert (Hnd : NoDup (map fst cs)).
    { rewrite (get_centroids_keys _ _ Hcs0). exact (proj1 (Hso m0)). }
    rewrite <- (length_map fst cs).
    etransitivity;
      [apply (NoDup_incl_length (l' := None :: map Some (firstn (Z.to_nat k) co)) Hnd)|].
    + intros l Hl. apply among_first_In.
      pose proof (Hkeys cs Hc0) as Hall. rewrite Forall_forall in Hall. now apply Hall.
    + simpl. rewrite length_map. pose proof (firstn_le_length (Z.to_nat k) co). lia.
Qed.

(** Two points on a line and one cluster. *)
Lemma k_means_keeps_to_its_labels_witness :
  exists m,
    Some [Some "red"; Some "red"]%string = Some m /\
    Forall (among_first 1) m /\
    Forall (among_first 1) (map fst [(Some "red"%string, [[2]]%float)]) /\
    length [(Some "red"%string, [[2]]%float)] <= S (Z.to_nat 1).
Proof.
  apply (proj2 (@k_means_keeps_to_its_labels float float_arith first_seen_order
                  [[0; 4]]%float 1 (cycle [0]) first_seen_ok)
           3 _ _ 2%float 2).
  vm_compute. reflexivity.
Defined.

(** A set of two labels is traversed in one order or the other. *)
Lemma set_iter_pair (SO : SetOrder) (a b : label) :
  set_iter_ok SO -> a <> b ->
  set_iter [a; b] = [a; b] \/ set_iter [a; b] = [b; a].
Proof.
  intros Hso Hab. destruct (Hso [a; b]) as [Hnd Hin].
  assert (Hle : length (set_iter [a; b]) <= 2).
  { apply (NoDup_incl_length (l' := [a; b]) Hnd). intros x Hx. now apply Hin. }
  assert (Ha : In a (set_iter [a; b])) by (apply Hin; now left).
  assert (Hb : In b (set_iter [a; b])) by (apply Hin; right; now left).
  revert Hle Ha Hb Hnd. clear Hin.
  destruct (set_iter [a; b]) as [|x [|y [|z l]]]; simpl; intros Hle Ha Hb Hnd;
    try lia.
  - destruct Ha as [<- | []]. destruct Hb as [<- | []]. now elim Hab.
  - destruct Ha as [<- | [<- | []]], Hb as [<- | [<- | []]]; auto; now elim Hab.
Qed.

(** What [k_means] returns fits together as the last pass left it: the
    membership and the cost are what [reassign] makes of the data and the
    centroids returned, and these centroids are those of the membership
    [prev] that the run had before its last pass; both memberships have one
    label per point, and at least one pass was made.  The centroids are not
    computed again from the membership returned: of two points at 0 drawn
    "red" and "orange", both end up with the label that the set is
    traversed from, whichever it is, and two centroids are returned where
    the membership returned has one (the only square taken is that of
    0.0). *)
Theorem k_means_returns_last_pass :
  (forall (F : Type) (PF : PyFloat F) (SO : SetOrder) (data : dataset) (k : Z)
          (g : Rng) (fuel : nat) (mem : option (list label)) (cs : dict) (sc : F)
          (it : nat),
      fst (k_means_count fuel data k g) = Some (Ok ((mem, cs, sc), it)) ->
      exists m prev : list label,
        mem = Some m /\
        reassign data cs = Ok (m, sc) /\
        get_centroids data (Some prev) = Ok cs /\
        length m = length (hd [] data) /\
        length prev = length (hd [] data) /\
        1 <= it /\
        exists st,
          reachable data k g st /\ continues st = true /\
          membership st = Some prev /\ S (iterations st) = it) /\
  (forall SO : SetOrder,
      set_iter_ok SO ->
      exists (l : label) (cs : dict),
        fst (@k_means float float_arith SO 1 [[0; 0]]%float 2 (cycle [0; 1]))
        = Some (Ok (Some [l; l], cs, 0%float)) /\
        length cs = 2 /\
        @get_centroids float float_arith SO [[0; 0]]%float (Some [l; l])
        = Ok [(l, [[0]]%float)]).
Proof.
  split.
  - intros F PF SO data k g fuel mem cs sc it H.
    destruct (k_means_last_pass _ _ _ _ H) as [st [st' [Hst [Hgo [Hb [_ Hret]]]]]].
    destruct (loop_body_inv _ _ Hb)
      as [prev [cs0 [m [Hprev [Hcs0 [Hr [Hm [Hc0 [_ Hit]]]]]]]]].
    unfold loop_return in Hret. rewrite Hc0, Hm in Hret. inversion Hret; subst.
    exists m, prev. split; [reflexivity|]. split; [exact Hr|]. split; [exact Hcs0|].
    destruct (reachable_shape Hst) as [x0 [rest [-> Hshape]]].
    rewrite Hprev in Hshape. simpl.
    split; [exact (reassign_length _ _ Hr (index_cons_0 x0 rest))|].
    split; [tauto|]. split; [lia|].
    exists st. auto.
  - intros SO Hso.
    assert (Hone : forall l : label,
               @get_centroids float float_arith SO [[0; 0]]%float (Some [l; l])
               = Ok [(l, [[0]]%float)]).
    { intros l. unfold get_centroids.
      change [l; l] with (repeat l 2) at 2. rewrite (set_iter_single Hso l 1).
      cbn [mapM]. unfold select_members. cbn [map combine filter snd].
      rewrite label_eqb_refl. reflexivity. }
    assert (Hrun : forall order : list label,
               set_iter [Some "red"; Some "orange"]%string = order ->
               order = [Some "red"; Some "orange"]%string \/
               order = [Some "orange"; Some "red"]%string ->
               exists (l : label) (cs : dict),
                 fst (@k_means float float_arith SO 1 [[0; 0]]%float 2 (cycle [0; 1]))
                 = Some (Ok (Some [l; l], cs, 0%float)) /\ length cs = 2).
    { intros order Horder Hcase.
      unfold k_means, k_means_count.
      change (@guess_clusters float [[0; 0]]%float 2 (cycle [0; 1]))
        with (@Ok (option (list label)) (Some [Some "red"; Some "orange"]%string),
              fun i => cycle [0; 1] (2 + i)).
      cbn [k_loop fst]. change (continues (initial_state _)) with true. cbv iota.
      unfold loop_body, initial_state at 1. cbn [membership].
      unfold get_centroids. rewrite Horder.
      destruct Hcase as [-> | ->].
      - exists (Some "red"%string). eexists. vm_compute. split; reflexivity.
      - exists (Some "orange"%string). eexists. vm_compute. split; reflexivity. }
    assert (Hne : Some "red"%string <> Some "orange"%string) by discriminate.
    destruct (@set_iter_pair SO _ _ Hso Hne) as [Hcase | Hcase].
    + destruct (Hrun _ eq_refl (or_introl Hcase)) as [l [cs [Hk Hlen]]].
      exists l, cs. split; [exact Hk|]. split; [exact Hlen | apply Hone].
    + destruct (Hrun _ eq_refl (or_intror Hcase)) as [l [cs [Hk Hlen]]].
      exists l, cs. split; [exact Hk|]. split; [exact Hlen | apply Hone].
Qed.

(** Two points on a line and one cluster. *)
Lemma k_means_returns_last_pass_witness :
  exists m prev : list label,
    Some [Some "red"; Some "red"]%string = Some m /\
    @reassign float _ [[0; 4]]%float [(Some "red"%string, [[2]]%float)]
    = Ok (m, 2%float) /\
    @get_centroids float _ first_seen_order [[0; 4]]%float (Some prev)
    = Ok [(Some "red"%string, [[2]]%float)] /\
    length m = length (hd [] [[0; 4]]%float) /\
    length prev = length (hd [] [[0; 4]]%float) /\
    1 <= 2 /\
    exists st,
      @reachable float float_arith first_seen_order [[0; 4]]%float 1 (cycle [0]) st /\
      continues st = true /\
      membership st = Some prev /\ S (iterations st) = 2.
Proof.
  apply (proj1 k_means_returns_last_pass float float_arith first_seen_order
           [[0; 4]]%float 1%Z (cycle [0]) 3).
  vm_compute. reflexivity.
Defined.

(** Once a pass has left the membership as it was, the run is over after
    one more pass at most: where a number is within the threshold of
    itself, as in binary64 and over the reals, the loop returns that
    membership with the centroids and the cost of the pass, whatever fuel
    it is given. *)
Theorem k_means_stops_when_stable :
  forall (F : Type) (PF : PyFloat F) (SO : SetOrder) (data : dataset)
         (st st1 : loop_state) (cs : dict) (fuel : nat),
    (forall a : F, flt threshold (fabs (fsub a a)) = false) ->
    loop_body data st = Ok st1 ->
    membership st1 = membership st ->
    c st1 = Some cs ->
    exists it,
      k_loop (S fuel) data st1 = Some (Ok ((membership st1, cs, score st1), it)) /\
      iterations st1 <= it <= S (iterations st1).
Proof.
  intros F PF SO data st st1 cs fuel Hself Hb Hsame Hcs.
  destruct (loop_body_inv _ _ Hb) as [m [cs0 [m' [Hm [Hcs0 [Hr [Hm' [Hc0 _]]]]]]]].
  rewrite Hcs in Hc0. inversion Hc0; subst cs0.
  assert (Hb1 : loop_body data st1
                = Ok {| membership := Some m'; c := Some cs; score := score st1;
                        last_score := score st1; iterations := S (iterations st1) |}).
  { unfold loop_body. rewrite Hsame, Hm, Hcs0. cbn [bind]. rewrite Hr. reflexivity. }
  cbn [k_loop]. destruct (continues st1) eqn:Hgo.
  - rewrite Hb1.
    assert (Hstop : continues {| membership := Some m'; c := Some cs;
                                 score := score st1; last_score := score st1;
                                 iterations := S (iterations st1) |} = false)
      by apply Hself.
    exists (S (iterations st1)). split; [|lia].
    destruct fuel; cbn [k_loop]; rewrite Hstop; unfold loop_return; simpl;
      now rewrite Hm'.
  - exists (iterations st1). split; [|lia].
    unfold loop_return. now rewrite Hcs.
Qed.

(** Two points on a line and one cluster: the first pass labels both
    points "red", as they were. *)
Lemma k_means_stops_when_stable_witness :
  exists it,
    @k_loop float float_arith first_seen_order 1 [[0; 4]]%float
      {| membership := Some [Some "red"; Some "red"]%string;
         c := Some [(Some "red"%string, [[2]]%float)];
         score := 2%float; last_score := 0%float; iterations := 1 |}
    = Some (Ok ((Some [Some "red"; Some "red"]%string,
                 [(Some "red"%string, [[2]]%float)], 2%float), it)) /\
    1 <= it <= 2.
Proof.
  apply (@k_means_stops_when_stable float float_arith first_seen_order [[0; 4]]%float
           (initial_state (Some [Some "red"; Some "red"]%string))
           {| membership := Some [Some "red"; Some "red"]%string;
              c := Some [(Some "red"%string, [[2]]%float)];
              score := 2%float; last_score := 0%float; iterations := 1 |}
           [(Some "red"%string, [[2]]%float)] 0).
  - intros a. apply float_sub_self. reflexivity.
  - vm_compute. reflexivity.
  - reflexivity.
  - reflexivity.
Defined.

(** ** Data without points *)

(** On data without a column the random initialization raises [IndexError],
    and so does the run.  On data whose first column is empty
    [guess_clusters] falls out of its loop and returns [None], without a
    draw and whatever [k] is; the first pass of [k_means] (the test holds at
    the start, [sys.maxsize] being further than the threshold from 0) then
    raises the [TypeError] of [set(None)]. *)
Theorem k_means_without_points :
  forall (F : Type) (PF : PyFloat F) (SO : SetOrder),
    flt threshold (fabs (fsub maxsize f0)) = true ->
    (forall (k : Z) (g : Rng) (fuel : nat),
        @guess_clusters F [] k g = (Raise IndexError, g) /\
        k_means fuel [] k g = (Some (Raise IndexError), g)) /\
    (forall (rest : dataset) (k : Z) (g : Rng) (fuel : nat),
        guess_clusters ([] :: rest) k g = (Ok None, g) /\
        k_means (S fuel) ([] :: rest) k g = (Some (Raise TypeError), g)).
Proof.
  intros F PF SO Hfirst. split.
  - intros k g fuel. split; reflexivity.
  - intros rest k g fuel. split; [reflexivity|].
    unfold k_means, k_means_count.
    change (guess_clusters ([] :: rest) k g) with (@Ok (option (list label)) None, g).
    cbn [k_loop]. unfold continues, initial_state. cbn [last_score score].
    rewrite Hfirst. reflexivity.
Qed.

(** A data set of two dimensions and no point. *)
Lemma k_means_without_points_witness :
  @guess_clusters float [[]; []] 2 (cycle [0]) = (Ok None, cycle [0]) /\
  @k_means float float_arith first_seen_order 1 [[]; []] 2 (cycle [0])
  = (Some (Raise TypeError), cycle [0]).
Proof.
  apply (proj2 (@k_means_without_points float float_arith first_seen_order eq_refl)
           [[]] 2%Z (cycle [0]) 0).
Defined.

(** On data without a column [reassign] raises [IndexError]; on data whose
    first column is empty its loop makes no round and the cost is 0 divided
    by 0.0, a [ZeroDivisionError], in binary64 and over the reals, where the
    first definition of [reassign], which computes no cost, returns the
    empty membership. *)
Theorem reassign_without_points :
  (forall (F : Type) (PF : PyFloat F) (centroids : dict),
      reassign [] centroids = Raise IndexError /\
      reassign_first [] centroids = Raise IndexError) /\
  (forall (rest : @dataset float) (centroids : dict),
      reassign ([] :: rest) centroids = Raise ZeroDivisionError /\
      reassign_first ([] :: rest) centroids = Ok []) /\
  (forall (rest : @dataset R) (centroids : dict),
      reassign ([] :: rest) centroids = Raise ZeroDivisionError /\
      reassign_first ([] :: rest) centroids = Ok []).
Proof.
  split; [|split].
  - intros F PF centroids. split; reflexivity.
  - intros rest centroids. split; reflexivity.
  - intros rest centroids. split; [|reflexivity].
    unfold reassign. simpl.
    destruct (Req_dec_T 0 0) as [_|H]; [reflexivity | now elim H].
Qed.

(** The centroids of a pass are points with one coordinate, in a list of
    its own, per dimension. *)
Lemma centroids_singletons {F : Type} {PF : PyFloat F} {SO : SetOrder}
      (x : dataset) (m : list label) (cs : dict) :
  get_centroids x (Some m) = Ok cs ->
  Forall (fun cv : label * point => singletons (snd cv)) cs.
Proof.
  simpl. intros H. apply mapM_Forall2 in H.
  induction H as [|l cv ls cs Hl _ IH]; constructor; [|exact IH].
  destruct (centroid (select_members x m l)) as [cen|e] eqn:E; simpl in Hl;
    [|discriminate].
  inversion Hl; subst. simpl. exact (centroid_singletons _ E).
Qed.

(** ** A run in real arithmetic *)

Section RealRun.

Context {SO : SetOrder}.

Variables (x0 : list R) (rest : @dataset R).

Hypothesis so_ok : set_iter_ok SO.
Hypothesis points : 1 <= length x0.
Hypothesis columns : Forall (fun col : list R => length col = length x0) rest.

Lemma real_rounds_total (cents : dict) (idx : nat) (best : R * label) :
  idx < length x0 ->
  Forall (fun cv : label * point => singletons (snd cv)) cents ->
  exists best', foldM (inner_round (x0 :: rest) idx) cents best = Ok best'.
Proof.
  intros Hidx Hc. revert best.
  induction Hc as [|cv cents Hcv _ IH]; intros best; simpl; [eauto|].
  unfold inner_round at 1.
  destruct (@point_at_total R (x0 :: rest) (length x0) idx) as [p [-> Hp]];
    [constructor; auto | exact Hidx |].
  cbn [bind]. destruct (real_distance_total Hcv Hp) as [d ->]. cbn [bind].
  apply IH.
Qed.

Lemma real_reassign_total (cents : dict) :
  Forall (fun cv : label * point => singletons (snd cv)) cents ->
  exists mem cost, reassign (x0 :: rest) cents = Ok (mem, cost).
Proof.
  intros Hc. rewrite reassign_eq, index_cons_0. cbn [bind].
  destruct (@mapM_total _ _ (nearest (x0 :: rest) cents) (seq 0 (length x0)))
    as [bests ->].
  { intros idx Hidx. apply in_seq in Hidx.
    apply real_rounds_total; [lia | exact Hc]. }
  cbn [bind].
  destruct (length x0) as [|n] eqn:En; [lia|].
  destruct (fdiv_len real_arith_exact
              (fsum (map snd (fold_left add_score bests []))) n) as [q ->].
  cbn [bind]. eauto.
Qed.

(** Every pass of a run is carried out. *)
Lemma real_loop_body_total (k : Z) (g : Rng) (st : loop_state) :
  reachable (x0 :: rest) k g st -> exists st', loop_body (x0 :: rest) st = Ok st'.
Proof.
  intros Hr. destruct (reachable_shape Hr) as [y0 [rest' [Hd Hshape]]].
  inversion Hd; subst y0 rest'.
  destruct (membership st) as [m|] eqn:Hm; [|lia].
  destruct (@reachable_get_centroids R real_arith SO (x0 :: rest) k g st m so_ok)
    as [cs Hcs]; auto.
  { intros a n Hn. destruct n as [|n]; [lia|]. apply (fdiv_len real_arith_exact). }
  destruct (real_reassign_total (centroids_singletons _ _ Hcs)) as [mem [cost Hre]].
  unfold loop_body. rewrite Hm, Hcs. cbn [bind]. rewrite Hre. cbn [bind]. eauto.
Qed.

Lemma real_k_loop (k : Z) (g : Rng) (fuel : nat) (st : loop_state) :
  reachable (x0 :: rest) k g st ->
  c st <> None \/ continues st = true ->
  k_loop fuel (x0 :: rest) st = None \/
  exists r it, k_loop fuel (x0 :: rest) st = Some (Ok (r, it)).
Proof.
  revert st. induction fuel as [|fuel IH]; intros st Hr Hc; cbn [k_loop].
  - destruct (continues st) eqn:Hgo; [now left|]. right.
    unfold loop_return. destruct (c st) as [cs|]; [eauto|].
    destruct Hc as [Hc | Hc]; [now elim Hc | discriminate].
  - destruct (continues st) eqn:Hgo.
    + destruct (real_loop_body_total Hr) as [st' Hb]. rewrite Hb.
      apply IH; [now apply reachable_pass with (st := st)|].
      left. destruct (loop_body_inv _ _ Hb) as [_ [cs [_ [_ [_ [_ [_ [-> _]]]]]]]].
      discriminate.
    + right. unfold loop_return. destruct (c st) as [cs|]; [eauto|].
      destruct Hc as [Hc | Hc]; [now elim Hc | discriminate].
Qed.

End RealRun.

(** In real arithmetic a run of [k_means] on one point or more, each with
    every coordinate, and with one to eight clusters raises no exception:
    as far as it is followed it is still in its loop, or it has returned. *)
Theorem real_run_raises_nothing :
  forall (SO : SetOrder) (x0 : list R) (rest : @dataset R) (k : Z) (g : Rng)
         (fuel : nat),
    set_iter_ok SO ->
    1 <= length x0 ->
    Forall (fun col : list R => length col = length x0) rest ->
    (1 <= k <= 8)%Z ->
    fst (k_means_count fuel (x0 :: rest) k g) = None \/
    exists r it, fst (k_means_count fuel (x0 :: rest) k g) = Some (Ok (r, it)).
Proof.
  intros SO x0 rest k g fuel Hso Hn Hrest Hk.
  assert (Hg : exists m g', guess_clusters (x0 :: rest) k g = (Ok (Some m), g')).
  { unfold guess_clusters, bindM at 1, pure_call at 1. rewrite index_cons_0.
    destruct (length x0) as [|n] eqn:En; [lia|].
    unfold bindM, retM. rewrite guess_labels_draws by exact Hk. eauto. }
  destruct Hg as [m [g' Hg]].
  unfold k_means_count. rewrite Hg. cbn [fst].
  apply (@real_k_loop SO x0 rest Hso Hn Hrest k g).
  - now apply reachable_init with (g' := g').
  - right. exact (da_first real_distance_arith).
Qed.

(** Two points of the real line and one cluster. *)
Lemma real_run_raises_nothing_witness :
  fst (@k_means_count R real_arith first_seen_order 2 [[0; 4]]%R 1 (cycle [0])) = None \/
  exists r it,
    fst (@k_means_count R real_arith first_seen_order 2 [[0; 4]]%R 1 (cycle [0]))
    = Some (Ok (r, it)).
Proof.
  apply (@real_run_raises_nothing first_seen_order [0; 4]%R [] 1%Z (cycle [0]) 2).
  - exact first_seen_ok.
  - simpl. lia.
  - constructor.
  - lia.
Defined.

(** ** The exceptions of a run *)

Section RunExceptions.

Context {F : Type} {PF : PyFloat F} {SO : SetOrder}.

Variable good : F -> Prop.

Hypothesis arith : distance_arith PF good.
Hypothesis square_raises : forall (a : F) (e : exn), fpow2 a = Raise e -> e = OverflowError.
Hypothesis root_of_good : forall a : F, good a -> exists b, fsqrt a = Ok b.

Variables (x0 : list F) (rest : @dataset F).

Hypothesis so_ok : set_iter_ok SO.
Hypothesis points : 1 <= length x0.
Hypothesis columns : Forall (fun col : list F => length col = length x0) rest.
Hypothesis counts_divide :
  forall (a : F) (n : nat), 1 <= n <= length x0 -> exists q, fdiv a (of_len n) = Ok q.

Lemma singletons_distance_raises (p1 p2 : point) (e : exn) :
  singletons p1 -> singletons p2 -> distance p1 p2 = Raise e -> e = OverflowError.
Proof.
  intros H1 H2 H.
  destruct (distance_raises arith _ _ H) as [-> | [[a Ha] | [a [Hgood Ha]]]].
  - exfalso. unfold distance in H.
    destruct (mapM _ (combine p1 p2)) as [sq|e'] eqn:Hsq; simpl in H.
    + assert (Hall : Forall good sq).
      { clear H. apply mapM_Forall2 in Hsq.
        induction Hsq as [|ij s l sq Hs _ IH]; constructor; [|exact IH].
        destruct (index (fst ij) 0) as [a|e1]; simpl in Hs; [|discriminate].
        destruct (index (snd ij) 0) as [b|e2]; simpl in Hs; [|discriminate].
        exact (da_pow2 arith _ Hs). }
      destruct (root_of_good (fsum_good arith Hall)) as [b Hb].
      rewrite Hb in H. discriminate.
    + inversion H; subst e'. apply mapM_Raise_inv in Hsq.
      destruct Hsq as [[c1 c2] [Hin Hij]].
      unfold singletons in H1, H2. rewrite Forall_forall in H1, H2.
      destruct (H1 c1 (in_combine_l _ _ _ _ Hin)) as [a ->].
      destruct (H2 c2 (in_combine_r _ _ _ _ Hin)) as [b ->].
      simpl in Hij. apply square_raises in Hij. discriminate.
  - exact (square_raises _ Ha).
  - destruct (root_of_good Hgood) as [b Hb]. rewrite Hb in Ha. discriminate.
Qed.

Lemma rounds_raise (cents : dict) (idx : nat) (best : F * label) (e : exn) :
  idx < length x0 ->
  Forall (fun cv : label * point => singletons (snd cv)) cents ->
  foldM (inner_round (x0 :: rest) idx) cents best = Raise e -> e = OverflowError.
Proof.
  intros Hidx Hc. revert best.
  induction Hc as [|cv cents Hcv _ IH]; intros best; simpl; [discriminate|].
  unfold inner_round at 1.
  destruct (@point_at_total F (x0 :: rest) (length x0) idx) as [p [-> Hp]];
    [constructor; auto | exact Hidx |].
  cbn [bind]. destruct (distance (snd cv) p) as [d|e'] eqn:Hd; cbn [bind].
  - apply IH.
  - intros H. inversion H; subst e'.
    exact (singletons_distance_raises Hcv Hp Hd).
Qed.

Lemma reassign_raises (cents : dict) (e : exn) :
  Forall (fun cv : label * point => singletons (snd cv)) cents ->
  reassign (x0 :: rest) cents = Raise e -> e = OverflowError.
Proof.
  intros Hc. rewrite reassign_eq, index_cons_0. cbn [bind].
  destruct (mapM (nearest (x0 :: rest) cents) (seq 0 (length x0))) as [bests|e']
    eqn:Hb; cbn [bind].
  - destruct (counts_divide (fsum (map snd (fold_left add_score bests [])))
                (n := length x0)) as [q ->]; [lia|].
    discriminate.
  - intros H. inversion H; subst e'. apply mapM_Raise_inv in Hb.
    destruct Hb as [idx [Hidx Hn]]. apply in_seq in Hidx.
    apply (@rounds_raise cents idx (maxsize, None)); [lia | exact Hc | exact Hn].
Qed.

Lemma loop_body_raises (k : Z) (g : Rng) (st : loop_state) (e : exn) :
  reachable (x0 :: rest) k g st ->
  loop_body (x0 :: rest) st = Raise e -> e = OverflowError.
Proof.
  intros Hr. destruct (reachable_shape Hr) as [y0 [rest' [Hd Hshape]]].
  inversion Hd; subst y0 rest'.
  destruct (membership st) as [m|] eqn:Hm; [|lia].
  destruct (@reachable_get_centroids F PF SO (x0 :: rest) k g st m so_ok)
    as [cs Hcs]; auto.
  unfold loop_body. rewrite Hm, Hcs. cbn [bind].
  destruct (reassign (x0 :: rest) cs) as [ms|e'] eqn:Hre; cbn [bind]; [discriminate|].
  intros H. inversion H; subst e'.
  exact (reassign_raises (centroids_singletons _ _ Hcs) Hre).
Qed.

Lemma k_loop_raises (k : Z) (g : Rng) (fuel : nat) (st : loop_state) (e : exn) :
  reachable (x0 :: rest) k g st ->
  c st <> None \/ continues st = true ->
  k_loop fuel (x0 :: rest) st = Some (Raise e) -> e = OverflowError.
Proof.
  revert st. induction fuel as [|fuel IH]; intros st Hr Hc; cbn [k_loop].
  - destruct (continues st) eqn:Hgo; [discriminate|].
    unfold loop_return. destruct (c st) as [cs|]; [discriminate|].
    destruct Hc as [Hc | Hc]; [now elim Hc | discriminate].
  - destruct (continues st) eqn:Hgo.
    + destruct (loop_body (x0 :: rest) st) as [st'|e'] eqn:Hb.
      * apply IH; [now apply reachable_pass with (st := st)|].
        left. destruct (loop_body_inv _ _ Hb) as [_ [cs [_ [_ [_ [_ [_ [-> _]]]]]]]].
        discriminate.
      * intros H. inversion H; subst e'. exact (loop_body_raises Hr Hb).
    + unfold loop_return. destruct (c st) as [cs|]; [discriminate|].
      destruct Hc as [Hc | Hc]; [now elim Hc | discriminate].
Qed.

End RunExceptions.

(** In binary64, whatever [a ** 2] returns on [|a|] as long as it has its
    sign bit clear or is not a number and raises nothing but
    [OverflowError]: a run of [k_means] on one point or more, each with every
    coordinate, and with one to eight clusters raises no exception but that
    [OverflowError] (where a sum can be divided by a count from 1 to n, as it
    can for every list there is). *)
Theorem run_raises_overflow_only :
  forall (square : float -> result float) (SO : SetOrder) (x0 : list float)
         (rest : @dataset float) (k : Z) (g : Rng) (fuel : nat) (e : exn),
    (forall a b : float, square a = Ok b -> float_good b) ->
    (forall (a : float) (e' : exn), square a = Raise e' -> e' = OverflowError) ->
    set_iter_ok SO ->
    1 <= length x0 ->
    Forall (fun col : list float => length col = length x0) rest ->
    (forall (a : float) (n : nat),
        1 <= n <= length x0 ->
        exists q, @fdiv float (float_arith_pow square) a (of_len n) = Ok q) ->
    (1 <= k <= 8)%Z ->
    fst (@k_means_count float (float_arith_pow square) SO fuel (x0 :: rest) k g)
    = Some (Raise e) ->
    e = OverflowError.
Proof.
  intros square SO x0 rest k g fuel e Hgood Hraise Hso Hn Hrest Hdiv Hk.
  assert (Hg : exists m g',
             @guess_clusters float (x0 :: rest) k g = (Ok (Some m), g')).
  { unfold guess_clusters, bindM at 1, pure_call at 1. rewrite index_cons_0.
    destruct (length x0) as [|n] eqn:En; [lia|].
    unfold bindM, retM. rewrite guess_labels_draws by exact Hk. eauto. }
  destruct Hg as [m [g' Hg]].
  unfold k_means_count. rewrite Hg. cbn [fst].
  apply (@k_loop_raises float (float_arith_pow square) SO float_good
           (float_pow_distance_arith square Hgood))
    with (k := k) (g := g).
  - intros a e' H. exact (Hraise _ _ H).
  - intros a Ha. simpl. rewrite (float_good_not_below_zero Ha). eauto.
  - exact Hso.
  - exact Hn.
  - exact Hrest.
  - exact Hdiv.
  - now apply reachable_init with (g' := g').
  - right. reflexivity.
Qed.

(** With the correctly rounded square, two points 2^701 apart: the square
    of their distance to the centroid is too large. *)
Lemma run_raises_overflow_only_witness : OverflowError = OverflowError.
Proof.
  apply (@run_raises_overflow_only rounded_square first_seen_order
           [-0x1p700; 0x1p700]%float [] 1%Z (cycle [0]) 1 OverflowError).
  - exact rounded_square_good.
  - exact rounded_square_raises.
  - exact first_seen_ok.
  - simpl. lia.
  - constructor.
  - intros a n Hn. simpl in Hn.
    assert (Hcase : n = 1 \/ n = 2) by lia.
    destruct Hcase as [-> | ->]; eexists; reflexivity.
  - lia.
  - vm_compute. reflexivity.
Defined.

(** ** The range of the cost *)

Lemma real_distances_from_nonneg (x : @dataset R) (cents : dict) (idx : nat)
      (ds : list R) :
  distances_from x cents idx = Ok ds -> Forall (fun d => (0 <= d)%R) ds.
Proof.
  unfold distances_from. intros H. apply mapM_Forall2 in H.
  induction H as [|cv d cents ds Hd _ IH]; constructor; [|exact IH].
  apply bind_Ok_inv in Hd. destruct Hd as [p [_ Hd]].
  exact (distance_good real_distance_arith _ _ Hd).
Qed.

(** The minimum the inner loop ends with lies between 0 and
    [sys.maxsize]. *)
Lemma real_nearest_range (x : @dataset R) (cents : dict) (idx : nat)
      (best : R * label) :
  nearest x cents idx = Ok best -> (0 <= fst best <= 9223372036854775807)%R.
Proof.
  intros H.
  destruct (nearest_is_nearest real_strict_order _ _ _ H)
    as [ds [Hds [[-> _] | [j [vc [_ [Hd [Hlt _]]]]]]]].
  - simpl. lra.
  - apply Rltb_true in Hlt. simpl in Hlt.
    pose proof (real_distances_from_nonneg _ _ _ Hds) as Hall.
    rewrite Forall_forall in Hall.
    pose proof (Hall _ (nth_error_In ds j Hd)). lra.
Qed.

Lemma real_sum_range (l : list R) (a M : R) :
  Forall (fun v => (0 <= v <= M)%R) l ->
  (a <= fold_left Rplus l a <= a + INR (length l) * M)%R.
Proof.
  intros H. revert a. induction H as [|v l Hv _ IH]; intros a.
  - simpl. lra.
  - cbn [fold_left length]. rewrite S_INR. specialize (IH (a + v)%R). lra.
Qed.

(** Over the reals the cost that [reassign] returns is not below 0 and not
    above [sys.maxsize], whatever the data and the centroids. *)
Theorem reassign_cost_range :
  forall (x : @dataset R) (centroids : dict) (mem : list label) (cost : R),
    reassign x centroids = Ok (mem, cost) ->
    (0 <= cost <= 9223372036854775807)%R.
Proof.
  intros x centroids mem cost. rewrite reassign_eq.
  destruct (index x 0) as [x0|e]; cbn [bind]; [|discriminate].
  destruct (mapM (nearest x centroids) (seq 0 (length x0))) as [bests|e] eqn:Hb;
    cbn [bind]; [|discriminate].
  rewrite (cost_of_bests real_arith_exact).
  assert (Hlen : length (map fst bests) = length x0).
  { rewrite length_map, (mapM_length _ _ Hb). apply length_seq. }
  assert (Hall : Forall (fun v => (0 <= v <= 9223372036854775807)%R) (map fst bests)).
  { apply mapM_Forall2 in Hb. clear Hlen.
    induction Hb as [|idx best idxs bests Hn _ IH]; simpl; constructor; [|exact IH].
    exact (real_nearest_range _ _ _ Hn). }
  pose proof (real_sum_range 0 Hall) as Hsum. rewrite Hlen in Hsum.
  change (@of_len R real_arith (length x0)) with (INR (length x0)).
  change (@fsum R real_arith (map fst bests)) with (fold_left Rplus (map fst bests) 0%R).
  change (@fdiv R real_arith (fold_left Rplus (map fst bests) 0%R) (INR (length x0)))
    with (if Req_dec_T (INR (length x0)) 0 then Raise ZeroDivisionError
          else Ok (fold_left Rplus (map fst bests) 0 / INR (length x0))%R).
  destruct (Req_dec_T (INR (length x0)) 0) as [_|Hne]; cbn [bind]; [discriminate|].
  intros H. inversion H; subst.
  assert (Hpos : (0 < INR (length x0))%R).
  { pose proof (pos_INR (length x0)). lra. }
  split.
  - apply Rmult_le_reg_r with (r := INR (length x0)); [exact Hpos|].
    unfold Rdiv. rewrite Rmult_assoc, Rinv_l by exact Hne. lra.
  - apply Rmult_le_reg_r with (r := INR (length x0)); [exact Hpos|].
    unfold Rdiv. rewrite Rmult_assoc, Rinv_l by exact Hne. lra.
Qed.

(** One point and no centroid: the cost is [sys.maxsize]. *)
Lemma reassign_cost_range_witness :
  (0 <= (0 + (9223372036854775807 + 0)) / 1 <= 9223372036854775807)%R.
Proof.
  apply (@reassign_cost_range [[5]]%R [] [None]
           ((0 + (9223372036854775807 + 0)) / 1)%R).
  unfold reassign. simpl.
  destruct (Req_dec_T 1 0) as [H|_]; [lra | reflexivity].
Defined.

(** ** The shape of subsets and centroids *)

Lemma selected_count {F : Type} (col : list F) (m : list label) (l : label) :
  length m <= length col ->
  length (map fst (filter (fun il => label_eqb (snd il) l) (combine col m)))
  = length (filter (fun l' => label_eqb l' l) m).
Proof.
  revert col. induction m as [|l' m IH]; intros col Hlen.
  - destruct col; reflexivity.
  - destruct col as [|v col]; [simpl in Hlen; lia|]. simpl in *.
    destruct (label_eqb l' l); simpl; rewrite IH by lia; reflexivity.
Qed.

(** [select_members] keeps the dimensions, and in every column that has a
    value for each label it selects as many values as there are points
    with the label: the subset of a data set whose points have every
    coordinate is such a data set. *)
Theorem select_members_count :
  forall (F : Type) (x : @dataset F) (m : list label) (l : label),
    Forall (fun col => length m <= length col) x ->
    length (select_members x m l) = length x /\
    Forall (fun col => length col = length (filter (fun l' => label_eqb l' l) m))
           (select_members x m l).
Proof.
  intros F x m l Hx. unfold select_members. split; [apply length_map|].
  induction Hx as [|col x Hcol _ IH]; simpl; constructor; [|exact IH].
  now apply selected_count.
Qed.

(** Three points in the plane, two of them "red". *)
Lemma select_members_count_witness :
  length (@select_members float [[1; 2; 3]; [4; 5; 6]]%float
            [Some "red"; Some "orange"; Some "red"]%string (Some "red"%string))
  = 2 /\
  Forall (fun col => length col = 2)
         (@select_members float [[1; 2; 3]; [4; 5; 6]]%float
            [Some "red"; Some "orange"; Some "red"]%string (Some "red"%string)).
Proof.
  apply (@select_members_count float [[1; 2; 3]; [4; 5; 6]]%float
           [Some "red"; Some "orange"; Some "red"]%string (Some "red"%string)).
  repeat constructor.
Defined.

(** [get_centroids] returns at most one centroid per point, and each is
    the centroid of the members of its key, a label of the membership: a
    point with one coordinate, in a list of its own, per dimension of the
    data. *)
Theorem get_centroids_shape :
  forall (F : Type) (PF : PyFloat F) (SO : SetOrder) (x : dataset) (m : list label)
         (cs : dict),
    set_iter_ok SO ->
    get_centroids x (Some m) = Ok cs ->
    length cs <= length m /\
    Forall (fun cv : label * point =>
              In (fst cv) m /\
              centroid (select_members x m (fst cv)) = Ok (snd cv) /\
              length (snd cv) = length x /\
              singletons (snd cv)) cs.
Proof.
  intros F PF SO x m cs Hso H.
  destruct (Hso m) as [Hnd Hin].
  split.
  - rewrite <- (length_map fst cs), (get_centroids_keys _ _ H).
    apply NoDup_incl_length; [exact Hnd|]. intros l Hl. now apply Hin.
  - simpl in H. apply mapM_Forall2 in H.
    assert (Hkeys : forall l, In l (set_iter m) -> In l m) by (intros l; apply Hin).
    clear Hnd Hin. revert H Hkeys. generalize (set_iter m). intros ls Hls Hkeys.
    induction Hls as [|l cv ls cs Hl _ IH]; constructor.
    + destruct (centroid (select_members x m l)) as [cen|e] eqn:E; simpl in Hl;
        [|discriminate].
      inversion Hl; subst cv. simpl.
      split; [apply Hkeys; now left|]. split; [exact E|].
      split; [|exact (centroid_singletons _ E)].
      unfold centroid in E. rewrite (mapM_length _ _ E).
      unfold select_members. apply length_map.
    + apply IH. intros l' Hl'. apply Hkeys. now right.
Qed.

(** Four points on a line, two "red", two "orange". *)
Lemma get_centroids_shape_witness :
  length [(Some "red"%string, [[2]]%float); (Some "orange"%string, [[3]]%float)]
  <= length [Some "red"; Some "orange"; Some "red"; Some "orange"]%string /\
  Forall (fun cv : label * point =>
            In (fst cv) [Some "red"; Some "orange"; Some "red"; Some "orange"]%string /\
            centroid (select_members [[1; 2; 3; 4]]%float
                        [Some "red"; Some "orange"; Some "red"; Some "orange"]%string
                        (fst cv)) = Ok (snd cv) /\
            length (snd cv) = length [[1; 2; 3; 4]]%float /\
            singletons (snd cv))
         [(Some "red"%string, [[2]]%float); (Some "orange"%string, [[3]]%float)].
Proof.
  apply (@get_centroids_shape float float_arith first_seen_order [[1; 2; 3; 4]]%float
           [Some "red"; Some "orange"; Some "red"; Some "orange"]%string
           [(Some "red"%string, [[2]]%float); (Some "orange"%string, [[3]]%float)]
           first_seen_ok).
  vm_compute. reflexivity.
Defined.

(** ** Data that is not well-formed *)



Section ShortColumn.

Context {F : Type} {PF : PyFloat F} {SO : SetOrder}.






Hypothesis so_ok : set_iter_ok SO.


End ShortColumn.



